(** * check_duplicates.py: a duplicate-key scanner for JSON documents

    A shallow embedding of [scripts/check_duplicates.py] and of the part of
    the Python runtime it runs on (text, insertion-ordered dictionaries,
    [collections.Counter], exceptions, console output, and the [json]
    decoder with its [object_pairs_hook]), followed by the properties of the
    script. *)

From Stdlib Require Import List NArith ZArith Bool Arith Lia String Ascii Sorted
  Permutation.
Import ListNotations.

Set Implicit Arguments.
Set Warnings "-register-all".

(* ================================================================== *)
(** * Python text                                                      *)
(* ================================================================== *)

(** A Python [str] is a sequence of Unicode code points. *)
Definition text := list N.

(** The text of an ASCII literal of this file. *)
Definition lit (s : string) : text := map N_of_ascii (list_ascii_of_string s).

Definition ch (a : ascii) : N := N_of_ascii a.
Arguments ch : simpl never.

(** The double quote. *)
Definition quote : N := 34.

(** The text of a literal in which the apostrophe stands for the double
    quote. *)
Definition json_lit (s : string) : text :=
  map (fun c => if N.eqb c 39 then quote else c) (lit s).

Fixpoint text_eqb (a b : text) : bool :=
  match a, b with
  | [], [] => true
  | x :: a', y :: b' => N.eqb x y && text_eqb a' b'
  | _, _ => false
  end.

(** [x in l] for a list of strings. *)
Fixpoint text_mem (x : text) (l : list text) : bool :=
  match l with
  | [] => false
  | y :: l' => text_eqb y x || text_mem x l'
  end.

(* ================================================================== *)
(** * Insertion-ordered dictionaries                                   *)
(* ================================================================== *)

(** A Python [dict] with [str] keys: the items in insertion order, every
    key at most once.  Assigning to a key that is present replaces its value
    in place; assigning to a new key appends an item. *)
Definition pydict (V : Type) := list (text * V).

Section Dict.
Variable V : Type.

Fixpoint dict_get (d : pydict V) (k : text) : option V :=
  match d with
  | [] => None
  | (k', v) :: d' => if text_eqb k' k then Some v else dict_get d' k
  end.

(** [d[k] = v] *)
Fixpoint dict_set (d : pydict V) (k : text) (v : V) : pydict V :=
  match d with
  | [] => [(k, v)]
  | (k', v') :: d' =>
      if text_eqb k' k then (k', v) :: d' else (k', v') :: dict_set d' k v
  end.

(** [d.get(k, default)] *)
Definition dict_get_default (d : pydict V) (k : text) (default : V) : V :=
  match dict_get d k with
  | Some v => v
  | None => default
  end.

(** [d.items()] *)
Definition items (d : pydict V) : list (text * V) := d.

(** [dict(pairs)]: the pairs are assigned one after the other. *)
Definition dict (pairs : list (text * V)) : pydict V :=
  fold_left (fun d kv => dict_set d (fst kv) (snd kv)) pairs [].
End Dict.

(** [collections.Counter(keys)]: [_count_elements] runs
    [mapping[elem] = mapping.get(elem, 0) + 1] for each element in turn. *)
Definition count_elements (mapping : pydict nat) (iterable : list text) : pydict nat :=
  fold_left (fun m elem => dict_set m elem (dict_get_default m elem 0 + 1))
            iterable mapping.

Definition Counter (keys : list text) : pydict nat := count_elements [] keys.

(* ================================================================== *)
(** * Values, exceptions, console and files                            *)
(* ================================================================== *)

(** The values the decoder builds.  A float is kept as the lexeme it was
    read from ([float(lexeme)], or the constant's name). *)
Inductive value : Type :=
| VNone
| VBool (b : bool)
| VInt (z : Z)
| VFloat (lexeme : text)
| VStr (s : text)
| VList (l : list value)
| VDict (d : pydict value).

(** The message of a [JSONDecodeError]. *)
Inductive jmsg : Type :=
| ExpectingValue
| ExpectingPropertyName      (* Expecting property name enclosed in double quotes *)
| ExpectingColon             (* Expecting ':' delimiter *)
| ExpectingComma             (* Expecting ',' delimiter *)
| ExtraData
| UnterminatedString         (* Unterminated string starting at *)
| InvalidControlCharacter
| InvalidEscape              (* Invalid \escape *)
| InvalidUXXXX               (* Invalid \uXXXX escape *)
| UnexpectedBOM.

(** The exceptions that can be raised while the script runs.  All but
    [SystemExit] are subclasses of [Exception]. *)
Inductive exn : Type :=
| OSError (errno : nat)                  (* open() failed: FileNotFoundError, PermissionError, ... *)
| UnicodeDecodeError (start : nat)       (* read() met bytes that are not UTF-8 *)
| JSONDecodeError (msg : jmsg) (doc : text) (pos : nat)
| ValueError_int_max_str_digits          (* int() of a literal with too many digits *)
| RecursionError
| UnicodeEncodeError                     (* print() of a text stdout cannot encode *)
| SystemExit (code : nat).

Definition is_Exception (e : exn) : bool :=
  match e with
  | SystemExit _ => false
  | _ => true
  end.

(** One line printed on standard output. *)
Inductive line : Type :=
| Checking (json_file : text)                  (* f"Checking {json_file}..." *)
| FileLine (json_file : text)                  (* f"File: {json_file}" *)
| FoundDuplicates (duplicates : list text)     (* f"Found duplicate keys in an object: {duplicates}" *)
| ErrorParsing (json_file : text) (e : exn)    (* f"Error parsing {json_file}: {e}" *)
| Usage.                                       (* "Usage: python check_duplicates.py <json_file> [json_file2 ...]" *)

(** What [open(path, 'r', encoding='utf-8')] followed by [read()] finds at a
    path. *)
Inductive file : Type :=
| Content (content : text)
| CannotOpen (errno : nat)
| NotUTF8 (start : nat).

(** The observable state of a run: the lines printed so far and the paths
    [open] was called on so far, both oldest first. *)
Record world : Type := World {
  stdout : list line;
  opened : list text
}.

(** The settings of the interpreter the decoder depends on: how many nested
    containers it can enter before the recursion limit is hit, and
    [sys.get_int_max_str_digits()] (0 for no limit).  The first number stands
    for a bound that, in a real interpreter, depends on the stack in use when
    [json.loads] is called and is somewhat lower for objects than for
    arrays. *)
Record interp : Type := Interp {
  recursion_limit : nat;
  int_max_str_digits : nat
}.

(* ================================================================== *)
(** * Computations: state, exceptions, fuel                            *)
(* ================================================================== *)

(** The result of a computation: a value, a raised exception, or
    [OutOfFuel] when a loop of the model ran out of its iteration budget
    (shown below not to happen). *)
Inductive outcome (A : Type) : Type :=
| Return (a : A)
| Raise (e : exn)
| OutOfFuel.
Arguments Raise {A} e.
Arguments OutOfFuel {A}.

Definition M (A : Type) : Type := world -> world * outcome A.

Definition ret {A} (a : A) : M A := fun w => (w, Return a).

Definition raise {A} (e : exn) : M A := fun w => (w, Raise e).

Definition out_of_fuel {A} : M A := fun w => (w, OutOfFuel).

Definition bind {A B} (m : M A) (k : A -> M B) : M B :=
  fun w =>
    match m w with
    | (w', Return a) => k a w'
    | (w', Raise e) => (w', Raise e)
    | (w', OutOfFuel) => (w', OutOfFuel)
    end.

Declare Scope py_scope.
Delimit Scope py_scope with py.
Notation "x <- m ;; k" := (bind m (fun x => k))
  (at level 61, m at next level, right associativity) : py_scope.
Notation "' p <- m ;; k" := (bind m (fun x => match x with p => k end))
  (at level 61, p pattern, m at next level, right associativity) : py_scope.
Notation "m ;; k" := (bind m (fun _ => k))
  (at level 61, right associativity) : py_scope.
Local Open Scope py_scope.

(** [print(l)] on a console that takes every line; [print_on] below is
    [print] on a console that can refuse one. *)
Definition print (l : line) : M unit :=
  fun w => (World (stdout w ++ [l]) (opened w), Return tt).

(** [try: body  except Exception as e: handler(e)] *)
Definition try_except {A} (body : M A) (handler : exn -> M A) : M A :=
  fun w =>
    match body w with
    | (w', Raise e) => if is_Exception e then handler e w' else (w', Raise e)
    | r => r
    end.

(** A pure step that may raise. *)
Definition lift {A} (r : outcome A) : M A := fun w => (w, r).

(* ================================================================== *)
(** * The json decoder                                                 *)
(* ================================================================== *)

(** [json.loads(s, object_pairs_hook=...)] of the standard library, after
    [json/decoder.py] and [json/scanner.py]: a recursive-descent decoder
    that calls the hook once for every object literal, at its closing brace,
    with the literal's (key, value) pairs in source order.  Where the C
    accelerator that CPython runs by default differs from those two files
    (the position reported for a bad escape or a control character, the
    digits accepted in a [\uXXXX] escape and in a number), the accelerator is
    followed.  The recursion limit is counted in nested containers. *)
Module json.

Local Open Scope char_scope.
Local Open Scope N_scope.

Definition is_ws (c : N) : bool :=
  N.eqb c (ch " ") || N.eqb c 9 || N.eqb c 10 || N.eqb c 13.

(** [WHITESPACE.match(s, end).end()] *)
Fixpoint skip_ws (s : text) : text :=
  match s with
  | c :: s' => if is_ws c then skip_ws s' else s
  | [] => []
  end.

Definition is_digit (c : N) : bool := N.leb (ch "0") c && N.leb c (ch "9").

Definition digit_val (c : N) : Z := Z.of_N (c - ch "0").

Definition hex_val (c : N) : option N :=
  if N.leb (ch "0") c && N.leb c (ch "9") then Some (c - ch "0")
  else if N.leb (ch "a") c && N.leb c (ch "f") then Some (c - ch "a" + 10)
  else if N.leb (ch "A") c && N.leb c (ch "F") then Some (c - ch "A" + 10)
  else None.

(** The four hexadecimal digits of a [\uXXXX] escape. *)
Definition decode_uXXXX (h1 h2 h3 h4 : N) : option N :=
  match hex_val h1, hex_val h2, hex_val h3, hex_val h4 with
  | Some a, Some b, Some c, Some d =>
      Some (N.lor (N.shiftl (N.lor (N.shiftl (N.lor (N.shiftl a 4) b) 4) c) 4) d)
  | _, _, _, _ => None
  end.

(** [BACKSLASH] *)
Definition BACKSLASH (esc : N) : option N :=
  if N.eqb esc quote then Some quote
  else if N.eqb esc (ch "\") then Some (ch "\")
  else if N.eqb esc (ch "/") then Some (ch "/")
  else if N.eqb esc (ch "b") then Some 8
  else if N.eqb esc (ch "f") then Some 12
  else if N.eqb esc (ch "n") then Some 10
  else if N.eqb esc (ch "r") then Some 13
  else if N.eqb esc (ch "t") then Some 9
  else None.

(** [s[idx:idx + len(prefix)] == prefix], with what follows the prefix. *)
Fixpoint starts_with (prefix s : text) : option text :=
  match prefix, s with
  | [], _ => Some s
  | p :: prefix', c :: s' => if N.eqb p c then starts_with prefix' s' else None
  | _ :: _, [] => None
  end.

(** The longest run of decimal digits at the start of [s], and the rest. *)
Fixpoint take_digits (s : text) : text * text :=
  match s with
  | c :: s' =>
      if is_digit c then let (ds, rest) := take_digits s' in (c :: ds, rest)
      else ([], s)
  | [] => ([], [])
  end.

(** [NUMBER_RE.match].  The pattern has three groups: an integer (an
    optional minus sign, then either a single 0 or a digit from 1 to 9
    followed by any digits), an optional fraction (a dot and one or more
    digits) and an optional exponent (e or E, an optional sign, one or more
    digits).  An absent group is returned empty. *)
Definition match_integer (s : text) : option (text * text) :=
  let (sign, s1) := match s with
                    | c :: s' => if N.eqb c (ch "-") then ([c], s') else ([], s)
                    | [] => ([], s)
                    end in
  match s1 with
  | c :: s2 =>
      if N.eqb c (ch "0") then Some (sign ++ [c], s2)
      else if is_digit c then
        let (ds, rest) := take_digits s2 in Some (sign ++ c :: ds, rest)
      else None
  | [] => None
  end.

Definition match_frac (s : text) : text * text :=
  match s with
  | c :: s' =>
      if N.eqb c (ch ".") then
        match take_digits s' with
        | ([], _) => ([], s)
        | (ds, rest) => (c :: ds, rest)
        end
      else ([], s)
  | [] => ([], s)
  end.

Definition match_exp (s : text) : text * text :=
  match s with
  | c :: s' =>
      if N.eqb c (ch "e") || N.eqb c (ch "E") then
        let (sign, s1) := match s' with
                          | c' :: s'' =>
                              if N.eqb c' (ch "-") || N.eqb c' (ch "+")
                              then ([c'], s'') else ([], s')
                          | [] => ([], s')
                          end in
        match take_digits s1 with
        | ([], _) => ([], s)
        | (ds, rest) => (c :: sign ++ ds, rest)
        end
      else ([], s)
  | [] => ([], s)
  end.

Definition match_number (s : text) : option (text * text * text * text) :=
  match match_integer s with
  | Some (integer, s1) =>
      let (frac, s2) := match_frac s1 in
      let (exp, s3) := match_exp s2 in
      Some (integer, frac, exp, s3)
  | None => None
  end.

(** [int(integer)] for a lexeme matched by the first group. *)
Definition int_of_digits (ds : text) : Z :=
  fold_left (fun acc c => (10 * acc + digit_val c)%Z) ds 0%Z.

Definition parse_int (cfg : interp) (integer : text) : outcome Z :=
  let (neg, ds) := match integer with
                   | c :: ds => if N.eqb c (ch "-") then (true, ds) else (false, integer)
                   | [] => (false, integer)
                   end in
  if negb (Nat.eqb (int_max_str_digits cfg) 0%nat)
     && Nat.ltb (int_max_str_digits cfg) (List.length ds)
  then Raise ValueError_int_max_str_digits
  else Return (if neg then (- int_of_digits ds)%Z else int_of_digits ds).

Section Decoder.
(** The document being decoded, the hook, and the interpreter. *)
Variable doc : text.
Variable object_pairs_hook : list (text * value) -> M value.
Variable cfg : interp.

(** [JSONDecodeError(msg, doc, pos)] where [pos] is the index at which
    the suffix [at_] of the document starts. *)
Definition errmsg (msg : jmsg) (at_ : text) : exn :=
  JSONDecodeError msg doc (List.length doc - List.length at_)%nat.

(** [scanstring(s, end)]: [s] starts after the opening quote, [begin] at
    it; [chunks] is the decoded text so far.  Returns the string and the
    text after the closing quote.  A [\uXXXX] escape needs its four
    digits and one more character after them; a high surrogate is joined
    with a following low-surrogate escape when at least seven characters
    follow it. *)
Fixpoint scanstring (begin : text) (chunks : text) (s : text) {struct s}
  : outcome (text * text) :=
  match s with
  | [] => Raise (errmsg UnterminatedString begin)
  | c :: s1 =>
      if N.eqb c quote then Return (chunks, s1)
      else if N.eqb c (ch "\") then
        match s1 with
        | [] => Raise (errmsg UnterminatedString begin)
        | esc :: s2 =>
            if N.eqb esc (ch "u") then
              match s2 with
              | h1 :: h2 :: h3 :: h4 :: ((_ :: _) as s3) =>
                  match decode_uXXXX h1 h2 h3 h4 with
                  | None => Raise (errmsg InvalidUXXXX s1)
                  | Some uni =>
                      if N.leb 0xd800 uni && N.leb uni 0xdbff then
                        match s3 with
                        | b :: ((u :: g1 :: g2 :: g3 :: g4 :: ((_ :: _) as s5)) as s4) =>
                            if N.eqb b (ch "\") && N.eqb u (ch "u") then
                              match decode_uXXXX g1 g2 g3 g4 with
                              | None => Raise (errmsg InvalidUXXXX s4)
                              | Some uni2 =>
                                  if N.leb 0xdc00 uni2 && N.leb uni2 0xdfff then
                                    scanstring begin
                                      (chunks ++ [0x10000 + N.lor (N.shiftl (uni - 0xd800) 10) (uni2 - 0xdc00)])
                                      s5
                                  else scanstring begin (chunks ++ [uni]) s3
                              end
                            else scanstring begin (chunks ++ [uni]) s3
                        | _ => scanstring begin (chunks ++ [uni]) s3
                        end
                      else scanstring begin (chunks ++ [uni]) s3
                  end
              | _ => Raise (errmsg InvalidUXXXX s1)
              end
            else
              match BACKSLASH esc with
              | Some c' => scanstring begin (chunks ++ [c']) s2
              | None => Raise (errmsg InvalidEscape s)
              end
        end
      else if N.leb c 0x1f then Raise (errmsg InvalidControlCharacter s)
      else scanstring begin (chunks ++ [c]) s1
  end.

(** [JSONArray]: the loop over the elements.  [s] is at the next
    element; [n] bounds the number of iterations. *)
Fixpoint JSONArray_loop (scan_once : text -> M (value * text)) (n : nat)
         (values : list value) (s : text) {struct n} : M (value * text) :=
  match n with
  | O => out_of_fuel
  | S n' =>
      '(v, s1) <- scan_once s ;;
      let values := values ++ [v] in
      let s2 := skip_ws s1 in
      match s2 with
      | c :: s3 =>
          if N.eqb c (ch "]") then ret (VList values, s3)
          else if N.eqb c (ch ",") then
            JSONArray_loop scan_once n' values (skip_ws s3)
          else raise (errmsg ExpectingComma s2)
      | [] => raise (errmsg ExpectingComma s2)
      end
  end.

(** [JSONArray((s, end), scan_once)]: [s] starts after the bracket. *)
Definition JSONArray (scan_once : text -> M (value * text)) (s : text)
  : M (value * text) :=
  let s1 := skip_ws s in
  match s1 with
  | c :: s2 =>
      if N.eqb c (ch "]") then ret (VList [], s2)
      else JSONArray_loop scan_once (S (List.length s1)) [] s1
  | [] => JSONArray_loop scan_once (S (List.length s1)) [] s1
  end.

(** [JSONObject]: the loop over the members.  [begin] is at the opening
    quote of the next key and [s] after it. *)
Fixpoint JSONObject_loop (scan_once : text -> M (value * text)) (n : nat)
         (pairs : list (text * value)) (begin s : text) {struct n}
  : M (value * text) :=
  match n with
  | O => out_of_fuel
  | S n' =>
      '(key, s1) <- lift (scanstring begin [] s) ;;
      let s2 := skip_ws s1 in
      match s2 with
      | c :: s3 =>
          if N.eqb c (ch ":") then
            '(v, s4) <- scan_once (skip_ws s3) ;;
            let pairs := pairs ++ [(key, v)] in
            let s5 := skip_ws s4 in
            match s5 with
            | c' :: s6 =>
                if N.eqb c' (ch "}") then
                  result <- object_pairs_hook pairs ;;
                  ret (result, s6)
                else if N.eqb c' (ch ",") then
                  let s7 := skip_ws s6 in
                  match s7 with
                  | q :: s8 =>
                      if N.eqb q quote then
                        JSONObject_loop scan_once n' pairs s7 s8
                      else raise (errmsg ExpectingPropertyName s7)
                  | [] => raise (errmsg ExpectingPropertyName s7)
                  end
                else raise (errmsg ExpectingComma s5)
            | [] => raise (errmsg ExpectingComma s5)
            end
          else raise (errmsg ExpectingColon s2)
      | [] => raise (errmsg ExpectingColon s2)
      end
  end.

(** [JSONObject((s, end), ...)]: [s] starts after the brace. *)
Definition JSONObject (scan_once : text -> M (value * text)) (s : text)
  : M (value * text) :=
  let s1 := skip_ws s in
  match s1 with
  | c :: s2 =>
      if N.eqb c (ch "}") then
        result <- object_pairs_hook [] ;;
        ret (result, s2)
      else if N.eqb c quote then
        JSONObject_loop scan_once (S (List.length s1)) [] s1 s2
      else raise (errmsg ExpectingPropertyName s1)
  | [] => raise (errmsg ExpectingPropertyName s1)
  end.

(** The number at the start of [s], if any. *)
Definition scan_number (s : text) : option (outcome (value * text)) :=
  match match_number s with
  | Some (integer, frac, exp, rest) =>
      match frac, exp with
      | [], [] =>
          match parse_int cfg integer with
          | Return z => Some (Return (VInt z, rest))
          | Raise e => Some (Raise e)
          | OutOfFuel => Some OutOfFuel
          end
      | _, _ => Some (Return (VFloat (integer ++ frac ++ exp), rest))
      end
  | None => None
  end.

(** [_scan_once(string, idx)].  [depth] is the number of containers that
    can still be entered; [StopIteration] is given as the
    [JSONDecodeError] every caller turns it into. *)
Fixpoint scan_once (depth : nat) (s : text) {struct depth} : M (value * text) :=
  match s with
  | [] => raise (errmsg ExpectingValue s)
  | nextchar :: s' =>
      if N.eqb nextchar quote then
        '(str, rest) <- lift (scanstring s [] s') ;;
        ret (VStr str, rest)
      else if N.eqb nextchar (ch "{") then
        match depth with
        | O => raise RecursionError
        | S depth' => JSONObject (scan_once depth') s'
        end
      else if N.eqb nextchar (ch "[") then
        match depth with
        | O => raise RecursionError
        | S depth' => JSONArray (scan_once depth') s'
        end
      else
        match starts_with (lit "null") s,
              starts_with (lit "true") s,
              starts_with (lit "false") s with
        | Some rest, _, _ => ret (VNone, rest)
        | None, Some rest, _ => ret (VBool true, rest)
        | None, None, Some rest => ret (VBool false, rest)
        | None, None, None =>
            match scan_number s with
            | Some r => lift r
            | None =>
                match starts_with (lit "NaN") s,
                      starts_with (lit "Infinity") s,
                      starts_with (lit "-Infinity") s with
                | Some rest, _, _ => ret (VFloat (lit "NaN"), rest)
                | None, Some rest, _ => ret (VFloat (lit "Infinity"), rest)
                | None, None, Some rest => ret (VFloat (lit "-Infinity"), rest)
                | None, None, None => raise (errmsg ExpectingValue s)
                end
            end
        end
  end.

(** [JSONDecoder.decode(s)] *)
Definition decode : M value :=
  '(obj, rest) <- scan_once (recursion_limit cfg) (skip_ws doc) ;;
  let rest' := skip_ws rest in
  match rest' with
  | [] => ret obj
  | _ :: _ => raise (errmsg ExtraData rest')
  end.
End Decoder.

(** [json.loads(s, object_pairs_hook=hook)] for a [str] argument. *)
Definition loads (cfg : interp) (s : text)
           (object_pairs_hook : list (text * value) -> M value) : M value :=
  if match s with
     | c :: _ => N.eqb c 0xfeff
     | [] => false
     end
  then raise (JSONDecodeError UnexpectedBOM s 0)
  else decode s object_pairs_hook cfg.
End json.

(* ================================================================== *)
(** * The script                                                       *)
(* ================================================================== *)

Section Script.
(** The interpreter's settings and the files on disk. *)
Variable cfg : interp.
Variable fs : text -> file.

(** [with open(json_file, 'r', encoding='utf-8') as f: content = f.read()] *)
Definition read_text (json_file : text) : M text :=
  fun w =>
    let w' := World (stdout w) (opened w ++ [json_file]) in
    match fs json_file with
    | Content content => (w', Return content)
    | CannotOpen errno => (w', Raise (OSError errno))
    | NotUTF8 start => (w', Raise (UnicodeDecodeError start))
    end.

(** The first three lines of [parse_object]: the keys that occur more
    than once among the pairs. *)
Definition duplicate_keys (V : Type) (pairs : list (text * V)) : list text :=
  let keys := map fst pairs in
  let counts := Counter keys in
  map fst (filter (fun kv => Nat.ltb 1 (snd kv)) (items counts)).

(** The hook of [find_duplicate_keys]. *)
Definition parse_object (json_file : text) (pairs : list (text * value)) : M value :=
  let duplicates := duplicate_keys pairs in
  match duplicates with
  | _ :: _ =>
      print (FileLine json_file) ;;
      print (FoundDuplicates duplicates) ;;
      ret (VDict (dict pairs))
  | [] => ret (VDict (dict pairs))
  end.

Definition find_duplicate_keys (json_file : text) : M unit :=
  print (Checking json_file) ;;
  content <- read_text json_file ;;
  try_except
    (_ <- json.loads cfg content (parse_object json_file) ;; ret tt)
    (fun e => print (ErrorParsing json_file e)).

(** [for arg in args: body(arg)] *)
Fixpoint for_each (A : Type) (args : list A) (body : A -> M unit) : M unit :=
  match args with
  | [] => ret tt
  | arg :: args' => body arg ;; for_each args' body
  end.

(** The [__main__] block; [argv] is [sys.argv]. *)
Definition main (argv : list text) : M unit :=
  if Nat.ltb (List.length argv) 2 then
    print Usage ;;
    raise (SystemExit 1)
  else
    for_each (tl argv) find_duplicate_keys.

(** The exit status of the interpreter: 0 when the script runs to its
    end, the code of a [SystemExit], 1 for any other uncaught exception. *)
Definition exit_status (r : outcome unit) : option nat :=
  match r with
  | Return _ => Some 0
  | Raise (SystemExit code) => Some code
  | Raise _ => Some 1
  | OutOfFuel => None
  end.

(** A run of the script from a fresh process: what it printed, which
    paths it opened, and its exit status. *)
Definition run (argv : list text) : world * option nat :=
  let (w, r) := main argv (World [] []) in (w, exit_status r).
End Script.

(* ================================================================== *)
(** * The script on a console that can refuse a line                   *)
(* ================================================================== *)

(** A console: the lines whose text the encoding of standard output can
    take.  [print] of a line it cannot take raises [UnicodeEncodeError] and
    prints nothing. *)
Definition console : Type := line -> bool.

Section ScriptOnConsole.
Variable con : console.
Variable cfg : interp.
Variable fs : text -> file.

(** [print(l)] *)
Definition print_on (l : line) : M unit :=
  fun w =>
    if con l then (World (stdout w ++ [l]) (opened w), Return tt)
    else (w, Raise UnicodeEncodeError).

(** The hook of [find_duplicate_keys]. *)
Definition parse_object_on (json_file : text) (pairs : list (text * value))
  : M value :=
  let duplicates := duplicate_keys pairs in
  match duplicates with
  | _ :: _ =>
      print_on (FileLine json_file) ;;
      print_on (FoundDuplicates duplicates) ;;
      ret (VDict (dict pairs))
  | [] => ret (VDict (dict pairs))
  end.

Definition find_duplicate_keys_on (json_file : text) : M unit :=
  print_on (Checking json_file) ;;
  content <- read_text fs json_file ;;
  try_except
    (_ <- json.loads cfg content (parse_object_on json_file) ;; ret tt)
    (fun e => print_on (ErrorParsing json_file e)).

(** The [__main__] block; [argv] is [sys.argv]. *)
Definition main_on (argv : list text) : M unit :=
  if Nat.ltb (List.length argv) 2 then
    print_on Usage ;;
    raise (SystemExit 1)
  else
    for_each (tl argv) find_duplicate_keys_on.

(** A run of the script from a fresh process. *)
Definition run_on (argv : list text) : world * option nat :=
  let (w, r) := main_on argv (World [] []) in (w, exit_status r).
End ScriptOnConsole.

(* ================================================================== *)
(** * Vocabulary of the properties                                     *)
(* ================================================================== *)

(** [keys.count(k)] *)
Fixpoint occurrences (k : text) (keys : list text) : nat :=
  match keys with
  | [] => 0
  | k' :: keys' => (if text_eqb k' k then 1 else 0) + occurrences k keys'
  end.

(** [keys.index(k)]: the position of the first appearance of [k]. *)
Fixpoint first_index (k : text) (keys : list text) : nat :=
  match keys with
  | [] => 0
  | k' :: keys' => if text_eqb k' k then 0 else S (first_index k keys')
  end.

(** The keys without their repetitions, each at its first appearance. *)
Fixpoint distinct (keys : list text) : list text :=
  match keys with
  | [] => []
  | k :: keys' => k :: filter (fun x => negb (text_eqb k x)) (distinct keys')
  end.

(** [w] with the lines [ls] printed after it. *)
Definition emit (w : world) (ls : list line) : world :=
  World (stdout w ++ ls) (opened w).

(** The hook that keeps every object literal as it is written: its pairs in
    source order, repeated keys included. *)
Definition keep_pairs (pairs : list (text * value)) : M value :=
  ret (VDict pairs).

(** The syntax tree of a document: what the decoder builds with
    [keep_pairs]. *)
Definition syntax_tree (cfg : interp) (s : text) : outcome value :=
  snd (json.loads cfg s keep_pairs (World [] [])).

(** The value of a syntax tree once every object literal in it has gone
    through [dict]. *)
Fixpoint collapse (v : value) : value :=
  match v with
  | VList l => VList (map collapse l)
  | VDict pairs =>
      VDict (dict (map (fun kv => match kv with (k, v') => (k, collapse v') end) pairs))
  | _ => v
  end.

(** The object literals of a syntax tree, at every depth, in the order of
    their closing braces; each is given by its pairs. *)
Fixpoint object_literals (v : value) : list (list (text * value)) :=
  match v with
  | VList l => flat_map object_literals l
  | VDict pairs =>
      flat_map (fun kv => match kv with (_, v') => object_literals v' end) pairs
      ++ [pairs]
  | _ => []
  end.

(** The lines the hook of [find_duplicate_keys] prints for one object
    literal: none, or the file line and the list of its repeated keys. *)
Definition report (json_file : text) (V : Type) (pairs : list (text * V)) : list line :=
  match duplicate_keys pairs with
  | [] => []
  | _ :: _ => [FileLine json_file; FoundDuplicates (duplicate_keys pairs)]
  end.

Section Files.
Variable fs : text -> file.

Definition readable (json_file : text) : bool :=
  match fs json_file with
  | Content _ => true
  | _ => false
  end.

(** The exception [open] or [read] raises on a file that is not
    readable. *)
Definition read_failure (json_file : text) : option exn :=
  match fs json_file with
  | Content _ => None
  | CannotOpen errno => Some (OSError errno)
  | NotUTF8 start => Some (UnicodeDecodeError start)
  end.

(** The arguments up to and including the first one that is not
    readable. *)
Fixpoint attempted (args : list text) : list text :=
  match args with
  | [] => []
  | arg :: args' => if readable arg then arg :: attempted args' else [arg]
  end.
End Files.

(** A scanning step on [s] is well behaved when it returns a strict suffix
    of [s] or raises a subclass of [Exception]; it never runs out of fuel. *)
Definition scans_ok (A : Type) (s : text) (r : outcome (A * text)) : Prop :=
  match r with
  | Return (_, rest) => List.length rest < List.length s
  | Raise e => is_Exception e = true
  | OutOfFuel => False
  end.
Arguments scans_ok : simpl never.

Ltac break_match :=
  match goal with
  | |- context [match ?x with _ => _ end] => destruct x eqn:?
  end.

(** [m] leaves the world as it is and ends in [r]. *)
Definition silent (A : Type) (m : M A) (r : outcome A) : Prop :=
  forall w, m w = (w, r).

(** [m] prints the lines [ls], whatever the world it starts in, and ends
    in [r]. *)
Definition runs (A : Type) (m : M A) (ls : list line) (r : outcome A) : Prop :=
  forall w, m w = (emit w ls, r).

(** The lines the hook of [find_duplicate_keys] prints for the object
    literals of a syntax tree. *)
Definition reports (json_file : text) (v : value) : list line :=
  flat_map (report json_file (V:=value)) (object_literals v).

Definition collapse_pair (kv : text * value) : text * value :=
  match kv with (k, v') => (k, collapse v') end.

(** The results of a scanning step on [s] under the two hooks: the same
    rest and [P] on the two values and the lines printed, or the same
    exception. *)
Definition related (s : text) (P : value -> value -> list line -> Prop)
           (rA rB : outcome (value * text)) (ls : list line) : Prop :=
  match rA, rB with
  | Return (va, ra), Return (vb, rb) =>
      ra = rb /\ List.length ra < List.length s /\ P va vb ls
  | Raise ea, Raise eb => ea = eb /\ is_Exception ea = true
  | _, _ => False
  end.

Definition sim (s : text) (P : value -> value -> list line -> Prop)
           (mA mB : M (value * text)) : Prop :=
  exists ls rA rB, silent mA rA /\ runs mB ls rB /\ related s P rA rB ls.

Definition tree_post (json_file : text) (va vb : value) (ls : list line) : Prop :=
  vb = collapse va /\ ls = reports json_file va.

(** The results of decoding one document under the two hooks. *)
Definition related_top (json_file : text) (rA rB : outcome value)
           (ls : list line) : Prop :=
  match rA, rB with
  | Return va, Return vb => vb = collapse va /\ ls = reports json_file va
  | Raise ea, Raise eb => ea = eb /\ is_Exception ea = true
  | _, _ => False
  end.

(** What [json.loads] prints and how it ends when it decodes [s] with the
    hook of [find_duplicate_keys], started on an empty console. *)
Definition scan_output (cfg : interp) (json_file s : text) : list line :=
  stdout (fst (json.loads cfg s (parse_object json_file) (World [] []))).

Definition scan_result (cfg : interp) (json_file s : text) : outcome value :=
  snd (json.loads cfg s (parse_object json_file) (World [] [])).

(** The lines printed after decoding: the diagnostic when it raised. *)
Definition diagnostic (json_file : text) (r : outcome value) : list line :=
  match r with
  | Raise e => [ErrorParsing json_file e]
  | _ => []
  end.

(** What [find_duplicate_keys] prints for a file, started on an empty
    console. *)
Definition file_output (cfg : interp) (fs : text -> file) (json_file : text)
  : list line :=
  stdout (fst (find_duplicate_keys cfg fs json_file (World [] []))).

(** The exception of the first argument that is not readable. *)
Fixpoint first_failure (fs : text -> file) (args : list text) : option exn :=
  match args with
  | [] => None
  | arg :: args' =>
      match read_failure fs arg with
      | Some e => Some e
      | None => first_failure fs args'
      end
  end.

(** A concrete interpreter and a few files, for the examples. *)
Definition cpython : interp := Interp 994 4300.

Definition prog : text := lit "check_duplicates.py".

Definition demo_fs (path : text) : file :=
  if text_eqb path (lit "bad.json") then Content (json_lit "{'a': 1,")
  else if text_eqb path (lit "empty.json") then Content []
  else if text_eqb path (lit "dup.json") then Content (json_lit "{'a': 1, 'a': 2}")
  else if text_eqb path (lit "abc.json") then Content (json_lit "{'a': 1, 'b': 2, 'a': 3}")
  else if text_eqb path (lit "list.json") then Content (json_lit "[{'x':1,'x':2}, {'y':1}]")
  else if text_eqb path (lit "inner.json") then Content (json_lit "{'p': {'k': 1, 'k': 2}, 'q': 0}")
  else if text_eqb path (lit "outer.json") then Content (json_lit "{'p': {'k': 1}, 'p': [2]}")
  else if text_eqb path (lit "latin1.json") then NotUTF8 0
  else CannotOpen 2.

Definition key_a : text := lit "a".
Definition key_b : text := lit "b".
Definition key_c : text := lit "c".

(** The console takes every line the script can print about a file. *)
Definition takes_file (con : console) (json_file : text) : Prop :=
  con (Checking json_file) = true /\
  con (FileLine json_file) = true /\
  (forall duplicates, con (FoundDuplicates duplicates) = true) /\
  (forall e, con (ErrorParsing json_file e) = true).

(** A console that takes the progress line of a file takes every line
    about that file. *)
Definition coherent_for (con : console) (json_file : text) : Prop :=
  con (Checking json_file) = true -> takes_file con json_file.

(** A UTF-8 console with the strict error handler.  It refuses a text in
    which a surrogate code point stands, as a file name from the command
    line can have; the [repr] of the duplicate list and the text of the
    exceptions are ASCII wherever a surrogate would be. *)
Definition is_surrogate (c : N) : bool := N.leb 0xd800 c && N.leb c 0xdfff.

Definition printable (t : text) : bool :=
  forallb (fun c => negb (is_surrogate c)) t.

Definition utf8_console : console :=
  fun l =>
    match l with
    | Checking json_file => printable json_file
    | FileLine json_file => printable json_file
    | ErrorParsing json_file _ => printable json_file
    | FoundDuplicates _ => true
    | Usage => true
    end.

(** The file gets through: its progress line is printed and it is read. *)
Definition passes (con : console) (fs : text -> file) (json_file : text) : bool :=
  con (Checking json_file) && readable fs json_file.

(** The arguments whose progress line is printed: all up to the first one
    that does not get through, and that one too when it is its reading that
    fails. *)
Fixpoint attempted_on (con : console) (fs : text -> file) (args : list text)
  : list text :=
  match args with
  | [] => []
  | arg :: args' =>
      if con (Checking arg) then
        if readable fs arg then arg :: attempted_on con fs args' else [arg]
      else []
  end.

(** The exception of the first argument that does not get through. *)
Fixpoint first_failure_on (con : console) (fs : text -> file) (args : list text)
  : option exn :=
  match args with
  | [] => None
  | arg :: args' =>
      if con (Checking arg) then
        match read_failure fs arg with
        | Some e => Some e
        | None => first_failure_on con fs args'
        end
      else Some UnicodeEncodeError
  end.

(** What [find_duplicate_keys] prints for a file on a console, started on
    an empty one. *)
Definition file_output_on (con : console) (cfg : interp) (fs : text -> file)
           (json_file : text) : list line :=
  stdout (fst (find_duplicate_keys_on con cfg fs json_file (World [] []))).

(** A file name with a surrogate in it, as [sys.argv] holds for a name that
    is not UTF-8 (here the byte E9 after [caf]). *)
Definition odd_name : text := lit "caf" ++ [0xdce9%N] ++ lit ".json".

(** What the hook prints while one document is decoded: blocks of two
    lines, the file line and a list of repeated keys that is not empty and
    names no key twice. *)
Inductive report_blocks (json_file : text) : list line -> Prop :=
| blocks_nil : report_blocks json_file []
| blocks_cons (duplicates : list text) (ls : list line) :
    duplicates <> [] -> NoDup duplicates ->
    report_blocks json_file ls ->
    report_blocks json_file
      (FileLine json_file :: FoundDuplicates duplicates :: ls).

(** [m] prints report blocks only, whatever the world it starts in and
    however it ends. *)
Definition reporting (A : Type) (json_file : text) (m : M A) : Prop :=
  forall w, exists ls, fst (m w) = emit w ls /\ report_blocks json_file ls.


(* ================================================================== *)
(** * Text, dictionaries and counters                                  *)
(* ================================================================== *)

Lemma text_eqb_eq (a b : text) : text_eqb a b = true <-> a = b.
Proof.
  revert b; induction a as [|x a IH]; intros [|y b]; simpl;
    try (split; congruence).
  rewrite andb_true_iff, N.eqb_eq, IH.
  split; [intros [-> ->]; reflexivity | intros [= -> ->]; auto].
Qed.

Lemma text_eqb_spec (a b : text) : reflect (a = b) (text_eqb a b).
Proof. apply iff_reflect; symmetry; apply text_eqb_eq. Qed.

Lemma text_eqb_refl (a : text) : text_eqb a a = true.
Proof. apply text_eqb_eq; reflexivity. Qed.

Lemma text_eqb_sym (a b : text) : text_eqb a b = text_eqb b a.
Proof.
  destruct (text_eqb_spec a b) as [->|H].
  - symmetry; apply text_eqb_refl.
  - destruct (text_eqb_spec b a); congruence.
Qed.

Lemma text_mem_In (x : text) (l : list text) : text_mem x l = true <-> In x l.
Proof.
  induction l as [|y l IH]; simpl; [split; [discriminate | tauto]|].
  rewrite orb_true_iff, text_eqb_eq, IH; tauto.
Qed.

Lemma text_mem_app (x : text) (l1 l2 : list text) :
  text_mem x (l1 ++ l2) = text_mem x l1 || text_mem x l2.
Proof.
  induction l1 as [|y l1 IH]; simpl; [reflexivity|].
  rewrite IH, orb_assoc; reflexivity.
Qed.

Section DictFacts.
Variable V : Type.
Implicit Types (d : pydict V) (k : text) (v : V).

Lemma dict_get_set_same d k v : dict_get (dict_set d k v) k = Some v.
Proof.
  induction d as [|[k' v'] d IH]; simpl.
  - rewrite text_eqb_refl; reflexivity.
  - destruct (text_eqb k' k) eqn:E; simpl; rewrite E; auto.
Qed.

Lemma dict_get_set_other d k k' v :
  k' <> k -> dict_get (dict_set d k v) k' = dict_get d k'.
Proof.
  intros Hne; induction d as [|[k0 v0] d IH]; simpl.
  - destruct (text_eqb_spec k k'); congruence.
  - destruct (text_eqb_spec k0 k) as [->|]; simpl.
    + destruct (text_eqb_spec k k'); congruence.
    + rewrite IH; reflexivity.
Qed.

Lemma dict_set_keys d k v :
  map fst (dict_set d k v) =
  if text_mem k (map fst d) then map fst d else map fst d ++ [k].
Proof.
  induction d as [|[k' v'] d IH]; simpl; [reflexivity|].
  destruct (text_eqb k' k) eqn:E; simpl; [reflexivity|].
  rewrite IH; destruct (text_mem k (map fst d)); reflexivity.
Qed.

Lemma dict_set_NoDup d k v :
  NoDup (map fst d) -> NoDup (map fst (dict_set d k v)).
Proof.
  intros H; rewrite dict_set_keys.
  destruct (text_mem k (map fst d)) eqn:E; [assumption|].
  apply NoDup_app; [assumption | repeat constructor; simpl; tauto |].
  intros x Hx [<-|[]].
  apply text_mem_In in Hx; congruence.
Qed.

Lemma dict_set_In d k v x :
  In x (map fst (dict_set d k v)) <-> x = k \/ In x (map fst d).
Proof.
  rewrite dict_set_keys.
  destruct (text_mem k (map fst d)) eqn:E.
  - apply text_mem_In in E; split; [tauto | intros [->|]; assumption].
  - rewrite in_app_iff; simpl; intuition congruence.
Qed.

Let assign := fun d (kv : text * V) => dict_set d (fst kv) (snd kv).

Lemma assign_all_NoDup pairs d :
  NoDup (map fst d) -> NoDup (map fst (fold_left assign pairs d)).
Proof.
  revert d; induction pairs as [|[k v] pairs IH]; simpl; intros d H;
    [assumption|].
  apply IH, dict_set_NoDup, H.
Qed.

Lemma assign_all_In pairs d x :
  In x (map fst (fold_left assign pairs d)) <->
  In x (map fst d) \/ In x (map fst pairs).
Proof.
  revert d; induction pairs as [|[k v] pairs IH]; simpl; intros d;
    [tauto|].
  rewrite IH; unfold assign; simpl; rewrite dict_set_In.
  intuition congruence.
Qed.

Lemma assign_all_get_absent pairs d k :
  ~ In k (map fst pairs) ->
  dict_get (fold_left assign pairs d) k = dict_get d k.
Proof.
  revert d; induction pairs as [|[k' v'] pairs IH]; simpl; intros d H;
    [reflexivity|].
  rewrite IH by tauto.
  apply dict_get_set_other; intros ->; tauto.
Qed.

Lemma dict_NoDup (pairs : list (text * V)) : NoDup (map fst (dict pairs)).
Proof. apply assign_all_NoDup; constructor. Qed.

Lemma dict_In (pairs : list (text * V)) x :
  In x (map fst (dict pairs)) <-> In x (map fst pairs).
Proof. unfold dict; fold assign; rewrite assign_all_In; simpl; tauto. Qed.

Lemma dict_last_wins (l1 l2 : list (text * V)) k v :
  ~ In k (map fst l2) ->
  dict_get (dict (l1 ++ (k, v) :: l2)) k = Some v.
Proof.
  intros H; unfold dict; fold assign.
  rewrite fold_left_app; simpl.
  rewrite assign_all_get_absent by assumption.
  apply dict_get_set_same.
Qed.

Lemma dict_get_absent (pairs : list (text * V)) k :
  ~ In k (map fst pairs) -> dict_get (dict pairs) k = None.
Proof.
  intros H; unfold dict; fold assign.
  rewrite assign_all_get_absent by assumption; reflexivity.
Qed.

(** In a dictionary, filtering the items on their value is filtering the
    keys on the value they are bound to. *)
Lemma filter_items (p : V -> bool) (default : V) d :
  NoDup (map fst d) ->
  map fst (filter (fun kv => p (snd kv)) (items d)) =
  filter (fun k => p (dict_get_default d k default)) (map fst d).
Proof.
  unfold items, dict_get_default.
  induction d as [|[k v] d IH]; simpl; intros H; [reflexivity|].
  inversion H as [|? ? Hk Hd]; subst.
  rewrite text_eqb_refl.
  assert (E : filter (fun k0 => p match (if text_eqb k k0 then Some v else dict_get d k0) with
                                  | Some v0 => v0 | None => default end) (map fst d)
              = filter (fun k0 => p match dict_get d k0 with
                                    | Some v0 => v0 | None => default end) (map fst d)).
  { apply filter_ext_in; intros x Hx.
    destruct (text_eqb_spec k x) as [->|]; [contradiction | reflexivity]. }
  rewrite E, <- IH by assumption.
  destruct (p v); reflexivity.
Qed.
End DictFacts.

Lemma filter_filter (A : Type) (f g : A -> bool) (l : list A) :
  filter f (filter g l) = filter (fun x => g x && f x) l.
Proof.
  induction l as [|x l IH]; simpl; [reflexivity|].
  destruct (g x); simpl; [destruct (f x)|]; rewrite IH; reflexivity.
Qed.

Lemma filter_all (A : Type) (f : A -> bool) (l : list A) :
  (forall x, In x l -> f x = true) -> filter f l = l.
Proof.
  induction l as [|x l IH]; simpl; intros H; [reflexivity|].
  rewrite H, IH by auto; reflexivity.
Qed.

Lemma filter_none (A : Type) (f : A -> bool) (l : list A) :
  (forall x, In x l -> f x = false) -> filter f l = [].
Proof.
  induction l as [|x l IH]; simpl; intros H; [reflexivity|].
  rewrite H, IH by auto; reflexivity.
Qed.

Section KeyFacts.
Implicit Types (k x : text) (keys : list text).

Lemma occurrences_In k keys : 0 < occurrences k keys <-> In k keys.
Proof.
  induction keys as [|k' keys IH]; simpl; [split; [lia | tauto]|].
  destruct (text_eqb_spec k' k) as [->|]; [split; [tauto | lia]|].
  simpl; rewrite IH; tauto.
Qed.

Lemma occurrences_NoDup k keys : NoDup keys -> occurrences k keys <= 1.
Proof.
  induction 1 as [|k' keys Hk _ IH]; simpl; [lia|].
  destruct (text_eqb_spec k' k) as [->|]; [|simpl; assumption].
  assert (occurrences k keys = 0); [|lia].
  destruct (occurrences k keys) eqn:E; [reflexivity|].
  exfalso; apply Hk, occurrences_In; lia.
Qed.

Lemma occurrences_NoDup_In k keys :
  NoDup keys -> In k keys -> occurrences k keys = 1.
Proof.
  intros Hn Hi.
  pose proof (occurrences_NoDup k Hn).
  apply occurrences_In in Hi; lia.
Qed.

Lemma distinct_In x keys : In x (distinct keys) <-> In x keys.
Proof.
  induction keys as [|k keys IH]; simpl; [tauto|].
  rewrite filter_In, IH, negb_true_iff.
  destruct (text_eqb_spec k x); intuition congruence.
Qed.

Lemma distinct_NoDup keys : NoDup (distinct keys).
Proof.
  induction keys as [|k keys IH]; simpl; constructor.
  - rewrite filter_In, text_eqb_refl; simpl; intros [_ [=]].
  - apply NoDup_filter, IH.
Qed.

Lemma count_elements_keys (m : pydict nat) keys :
  map fst (count_elements m keys) =
  map fst m ++ filter (fun x => negb (text_mem x (map fst m))) (distinct keys).
Proof.
  revert m; induction keys as [|k keys IH]; intros m; simpl.
  - symmetry; apply app_nil_r.
  - unfold count_elements in *; simpl; rewrite IH, dict_set_keys.
    destruct (text_mem k (map fst m)) eqn:E; simpl.
    + f_equal; rewrite filter_filter; apply filter_ext; intros x.
      destruct (text_eqb_spec k x) as [<-|]; simpl;
        [rewrite E|]; reflexivity.
    + rewrite <- app_assoc; simpl; do 2 f_equal.
      rewrite filter_filter; apply filter_ext; intros x.
      rewrite text_mem_app; simpl.
      rewrite orb_false_r, negb_orb, andb_comm; reflexivity.
Qed.

Lemma count_elements_get (m : pydict nat) keys k :
  dict_get_default (count_elements m keys) k 0 =
  dict_get_default m k 0 + occurrences k keys.
Proof.
  revert m; induction keys as [|k' keys IH]; intros m; simpl; [lia|].
  unfold count_elements in *; simpl; rewrite IH.
  unfold dict_get_default.
  destruct (text_eqb_spec k' k) as [->|Hne].
  - rewrite dict_get_set_same; lia.
  - rewrite dict_get_set_other by congruence; lia.
Qed.

Lemma Counter_keys keys : map fst (Counter keys) = distinct keys.
Proof.
  unfold Counter; rewrite count_elements_keys; simpl.
  apply filter_all; reflexivity.
Qed.

Lemma Counter_get keys k :
  dict_get_default (Counter keys) k 0 = occurrences k keys.
Proof. unfold Counter; rewrite count_elements_get; reflexivity. Qed.

(** The index of first appearance orders the distinct keys. *)
Lemma first_index_head_lt k x keys :
  k <> x -> first_index k (k :: keys) < first_index x (k :: keys).
Proof.
  intros H; simpl; rewrite text_eqb_refl.
  destruct (text_eqb_spec k x); [contradiction | lia].
Qed.

Lemma first_index_tail k a b keys :
  k <> a -> k <> b ->
  first_index a keys < first_index b keys ->
  first_index a (k :: keys) < first_index b (k :: keys).
Proof.
  intros Ha Hb H; simpl.
  destruct (text_eqb_spec k a), (text_eqb_spec k b); try contradiction; lia.
Qed.
End KeyFacts.

Lemma StronglySorted_filter (A : Type) (R : A -> A -> Prop) (f : A -> bool) (l : list A) :
  StronglySorted R l -> StronglySorted R (filter f l).
Proof.
  induction 1 as [|x l Hl IH Hx]; simpl; [constructor|].
  destruct (f x); [|assumption].
  constructor; [assumption|].
  rewrite Forall_forall in *; intros y Hy.
  apply filter_In in Hy; apply Hx; tauto.
Qed.

Lemma StronglySorted_weaken (A : Type) (R R' : A -> A -> Prop) (l : list A) :
  (forall x y, In x l -> In y l -> R x y -> R' x y) ->
  StronglySorted R l -> StronglySorted R' l.
Proof.
  intros H Hs; induction Hs as [|x l Hl IH Hx]; constructor.
  - apply IH; intros; apply H; simpl; auto.
  - rewrite Forall_forall in *; intros y Hy; apply H; simpl; auto.
Qed.

Lemma distinct_sorted (keys : list text) :
  StronglySorted (fun a b => first_index a keys < first_index b keys)
                 (distinct keys).
Proof.
  induction keys as [|k keys IH]; simpl distinct; constructor.
  - apply StronglySorted_weaken
      with (R := fun a b => first_index a keys < first_index b keys).
    + intros x y Hx Hy; apply filter_In in Hx, Hy.
      destruct Hx as [_ Hx], Hy as [_ Hy]; rewrite negb_true_iff in Hx, Hy.
      apply first_index_tail.
      * intros ->; rewrite text_eqb_refl in Hx; discriminate.
      * intros ->; rewrite text_eqb_refl in Hy; discriminate.
    + apply StronglySorted_filter, IH.
  - rewrite Forall_forall; intros x Hx; apply filter_In in Hx.
    destruct Hx as [_ Hx]; rewrite negb_true_iff in Hx.
    apply first_index_head_lt.
    intros ->; rewrite text_eqb_refl in Hx; discriminate.
Qed.

(** The duplicate list of the hook: the distinct keys, in order of first
    appearance, that occur more than once. *)
Lemma duplicate_keys_eq (V : Type) (pairs : list (text * V)) :
  duplicate_keys pairs =
  filter (fun k => Nat.ltb 1 (occurrences k (map fst pairs)))
         (distinct (map fst pairs)).
Proof.
  unfold duplicate_keys.
  rewrite filter_items with (default := 0)
    by (rewrite Counter_keys; apply distinct_NoDup).
  rewrite Counter_keys.
  apply filter_ext; intros k; rewrite Counter_get; reflexivity.
Qed.

Lemma duplicate_keys_In (V : Type) (pairs : list (text * V)) (k : text) :
  In k (duplicate_keys pairs) <-> 2 <= occurrences k (map fst pairs).
Proof.
  rewrite duplicate_keys_eq, filter_In, distinct_In, Nat.ltb_lt.
  rewrite <- occurrences_In; lia.
Qed.

Lemma duplicate_keys_NoDup (V : Type) (pairs : list (text * V)) :
  NoDup (duplicate_keys pairs).
Proof. rewrite duplicate_keys_eq; apply NoDup_filter, distinct_NoDup. Qed.

Lemma duplicate_keys_same_keys (V W : Type)
      (pairs : list (text * V)) (pairs' : list (text * W)) :
  map fst pairs = map fst pairs' -> duplicate_keys pairs = duplicate_keys pairs'.
Proof. intros H; unfold duplicate_keys; rewrite H; reflexivity. Qed.

Lemma parse_object_eq (json_file : text) (pairs : list (text * value)) (w : world) :
  parse_object json_file pairs w =
  (emit w (report json_file pairs), Return (VDict (dict pairs))).
Proof.
  unfold parse_object, report, emit.
  destruct (duplicate_keys pairs) as [|k ks]; cbn.
  - rewrite app_nil_r; destruct w; reflexivity.
  - rewrite <- app_assoc; reflexivity.
Qed.

(* ================================================================== *)
(** * The decoder: lexical layer                                       *)
(* ================================================================== *)

Lemma scans_ok_longer (A : Type) (s s' : text) (r : outcome (A * text)) :
  scans_ok s r -> List.length s <= List.length s' -> scans_ok s' r.
Proof. unfold scans_ok; destruct r as [[a rest]|e|]; auto; lia. Qed.

Module json_facts.
Import json.

Lemma skip_ws_length (s : text) : List.length (skip_ws s) <= List.length s.
Proof.
  induction s as [|c s IH]; simpl; [lia|].
  destruct (is_ws c); simpl; lia.
Qed.

Lemma take_digits_length (s ds rest : text) :
  take_digits s = (ds, rest) -> List.length rest <= List.length s.
Proof.
  revert ds rest; induction s as [|c s IH]; simpl; intros ds rest.
  - intros [= <- <-]; simpl; lia.
  - destruct (is_digit c).
    + destruct (take_digits s) as [ds' rest'] eqn:E.
      intros [= <- <-]; specialize (IH _ _ eq_refl); lia.
    + intros [= <- <-]; simpl; lia.
Qed.

Lemma starts_with_length (prefix s rest : text) :
  starts_with prefix s = Some rest ->
  List.length s = List.length prefix + List.length rest.
Proof.
  revert s; induction prefix as [|p prefix IH]; intros [|c s]; simpl;
    try discriminate; try (intros [= <-]; reflexivity).
  destruct (N.eqb p c); [|discriminate].
  intros H; rewrite (IH _ H); reflexivity.
Qed.

Lemma match_integer_length (s integer rest : text) :
  match_integer s = Some (integer, rest) ->
  List.length rest < List.length s.
Proof.
  unfold match_integer.
  destruct s as [|c s]; [discriminate|].
  assert (H : forall s1, List.length s1 <= S (List.length s) ->
            forall sign,
            match s1 with
            | [] => None
            | c0 :: s2 =>
                if N.eqb c0 (ch "0") then Some (sign ++ [c0], s2)
                else if is_digit c0
                     then let (ds, rest0) := take_digits s2 in
                          Some (sign ++ c0 :: ds, rest0)
                     else None
            end = Some (integer, rest) ->
            List.length rest < S (List.length s)).
  { intros [|c0 s2] Hl sign; [discriminate|]; simpl in Hl.
    destruct (N.eqb c0 (ch "0")); [intros [= <- <-]; lia|].
    destruct (is_digit c0); [|discriminate].
    destruct (take_digits s2) as [ds rest0] eqn:E.
    intros [= <- <-]; apply take_digits_length in E; lia. }
  simpl; destruct (N.eqb c (ch "-"));
    [apply (H s) with (sign := [c]) | apply (H (c :: s)) with (sign := [])];
    simpl; lia.
Qed.

Lemma match_frac_length (s frac rest : text) :
  match_frac s = (frac, rest) -> List.length rest <= List.length s.
Proof.
  unfold match_frac; destruct s as [|c s]; [intros [= <- <-]; lia|].
  destruct (N.eqb c (ch ".")); [|intros [= <- <-]; lia].
  destruct (take_digits s) as [[|d ds] rest0] eqn:E;
    intros [= <- <-]; [lia|].
  apply take_digits_length in E; simpl; lia.
Qed.

Lemma match_exp_length (s exp rest : text) :
  match_exp s = (exp, rest) -> List.length rest <= List.length s.
Proof.
  unfold match_exp; destruct s as [|c s]; [intros [= <- <-]; lia|].
  destruct (N.eqb c (ch "e") || N.eqb c (ch "E")); [|intros [= <- <-]; lia].
  assert (H : forall sign s1, List.length s1 <= List.length s ->
            match take_digits s1 with
            | ([], _) => ([], c :: s)
            | (ds, rest0) => (c :: sign ++ ds, rest0)
            end = (exp, rest) -> List.length rest <= List.length (c :: s)).
  { intros sign s1 Hl.
    destruct (take_digits s1) as [[|d ds] rest0] eqn:E;
      intros [= <- <-]; [lia|].
    apply take_digits_length in E; simpl; lia. }
  destruct s as [|c' s']; [apply (H [] []); simpl; lia|].
  destruct (N.eqb c' (ch "-") || N.eqb c' (ch "+"));
    [apply (H [c'] s') | apply (H [] (c' :: s'))]; simpl; lia.
Qed.

Lemma match_number_length (s integer frac exp rest : text) :
  match_number s = Some (integer, frac, exp, rest) ->
  List.length rest < List.length s.
Proof.
  unfold match_number.
  destruct (match_integer s) as [[i s1]|] eqn:E1; [|discriminate].
  destruct (match_frac s1) as [f s2] eqn:E2.
  destruct (match_exp s2) as [e s3] eqn:E3.
  intros [= <- <- <- <-].
  apply match_integer_length in E1.
  apply match_frac_length in E2.
  apply match_exp_length in E3; lia.
Qed.

Lemma parse_int_ok (cfg : interp) (integer : text) :
  match parse_int cfg integer with
  | Return _ => True
  | Raise e => e = ValueError_int_max_str_digits
  | OutOfFuel => False
  end.
Proof.
  unfold parse_int.
  match goal with
  | |- context [let (_, _) := ?x in _] => destruct x as [neg ds]
  end.
  match goal with
  | |- context [if ?b then _ else _] => destruct b
  end; auto.
Qed.

Lemma scan_number_ok (cfg : interp) (s : text) (r : outcome (value * text)) :
  scan_number cfg s = Some r ->
  scans_ok s r /\
  match r with
  | Return (v, _) => collapse v = v /\ object_literals v = []
  | _ => True
  end.
Proof.
  unfold scan_number.
  destruct (match_number s) as [[[[i f] e] rest]|] eqn:E; [|discriminate].
  apply match_number_length in E.
  pose proof (parse_int_ok cfg i) as Hi.
  destruct f, e; try (intros [= <-]; unfold scans_ok; simpl; auto).
  destruct (parse_int cfg i); intros [= <-]; unfold scans_ok; simpl; auto.
  subst; auto.
Qed.

Lemma scanstring_ok (doc : text) (n : nat) :
  forall s, List.length s <= n ->
  forall begin chunks, scans_ok s (scanstring doc begin chunks s).
Proof.
  induction n as [|n IH]; intros s Hn begin chunks.
  - destruct s; [reflexivity | simpl in Hn; lia].
  - destruct s as [|c s1]; [reflexivity|].
    cbn [List.length] in Hn; cbn [scanstring].
    repeat (break_match; subst; cbv beta match; cbn [List.length] in * ).
    all: try reflexivity.
    all: try (unfold scans_ok; cbn [List.length]; lia).
    all: eapply scans_ok_longer; [apply IH|]; cbn [List.length]; lia.
Qed.
End json_facts.

(* ================================================================== *)
(** * The decoder: one hook against the other                          *)
(* ================================================================== *)

Lemma emit_nil (w : world) : emit w [] = w.
Proof. destruct w; unfold emit; simpl; rewrite app_nil_r; reflexivity. Qed.

Lemma emit_emit (w : world) (l1 l2 : list line) :
  emit (emit w l1) l2 = emit w (l1 ++ l2).
Proof. unfold emit; simpl; rewrite app_assoc; reflexivity. Qed.

Lemma flat_map_flat_map (A B C : Type) (f : A -> list B) (g : B -> list C) (l : list A) :
  flat_map g (flat_map f l) = flat_map (fun x => flat_map g (f x)) l.
Proof.
  induction l as [|x l IH]; simpl; [reflexivity|].
  rewrite flat_map_app, IH; reflexivity.
Qed.

Lemma reports_VList (f : text) (l : list value) :
  reports f (VList l) = flat_map (reports f) l.
Proof. unfold reports; simpl; apply flat_map_flat_map. Qed.

Lemma reports_VDict (f : text) (pairs : list (text * value)) :
  reports f (VDict pairs) =
  flat_map (fun kv => reports f (snd kv)) pairs ++ report f pairs.
Proof.
  unfold reports; simpl.
  rewrite flat_map_app, flat_map_flat_map; simpl; rewrite app_nil_r.
  f_equal; apply flat_map_ext; intros [k v]; reflexivity.
Qed.

Lemma collapse_VDict (pairs : list (text * value)) :
  collapse (VDict pairs) = VDict (dict (map collapse_pair pairs)).
Proof. reflexivity. Qed.

Lemma collapse_pair_keys (pairs : list (text * value)) :
  map fst (map collapse_pair pairs) = map fst pairs.
Proof.
  rewrite map_map; apply map_ext; intros [k v]; reflexivity.
Qed.

Lemma report_collapse (f : text) (pairs : list (text * value)) :
  report f (map collapse_pair pairs) = report f pairs.
Proof.
  unfold report.
  rewrite (duplicate_keys_same_keys (map collapse_pair pairs) pairs
             (collapse_pair_keys pairs)).
  reflexivity.
Qed.

Section Sim.
Variable s : text.
Implicit Types (P Q : value -> value -> list line -> Prop).

Lemma sim_raise P (e : exn) :
  is_Exception e = true -> sim s P (raise e) (raise e).
Proof.
  intros H; exists [], (Raise e), (Raise e); repeat split; auto.
  intros w; unfold raise; rewrite emit_nil; reflexivity.
Qed.

Lemma sim_ret P (va vb : value) (rest : text) :
  List.length rest < List.length s -> P va vb [] ->
  sim s P (ret (va, rest)) (ret (vb, rest)).
Proof.
  intros Hl HP; exists [], (Return (va, rest)), (Return (vb, rest)).
  repeat split; auto.
  intros w; unfold ret; rewrite emit_nil; reflexivity.
Qed.

Lemma sim_post P Q (mA mB : M (value * text)) :
  (forall va vb ls, P va vb ls -> Q va vb ls) ->
  sim s P mA mB -> sim s Q mA mB.
Proof.
  intros H (ls & rA & rB & HA & HB & Hr).
  exists ls, rA, rB; repeat split; auto.
  unfold related in *.
  destruct rA as [[va ra]|ea|], rB as [[vb rb]|eb|]; intuition.
Qed.

(** A step that does not depend on the hook, then a continuation. *)
Lemma sim_lift P (X : Type) (s0 : text) (r : outcome (X * text))
      (kA kB : X * text -> M (value * text)) :
  scans_ok s0 r ->
  (forall x rest, r = Return (x, rest) -> sim s P (kA (x, rest)) (kB (x, rest))) ->
  sim s P (bind (lift r) kA) (bind (lift r) kB).
Proof.
  intros Hok Hk; destruct r as [[x rest]|e|]; [| |contradiction].
  - destruct (Hk x rest eq_refl) as (ls & rA & rB & HA & HB & Hr).
    exists ls, rA, rB; repeat split; auto;
      intros w; unfold bind, lift; auto.
  - exists [], (Raise e), (Raise e); repeat split; auto;
      intros w; unfold bind, lift; rewrite ?emit_nil; reflexivity.
Qed.

(** A scanning step under each hook, then a continuation. *)
Lemma sim_bind P Q (s1 : text) (mA mB : M (value * text))
      (kA kB : value * text -> M (value * text)) :
  sim s1 Q mA mB ->
  (forall va vb rest ls1,
      List.length rest < List.length s1 -> Q va vb ls1 ->
      sim s (fun va' vb' ls2 => P va' vb' (ls1 ++ ls2))
          (kA (va, rest)) (kB (vb, rest))) ->
  sim s P (bind mA kA) (bind mB kB).
Proof.
  intros (ls1 & rA & rB & HA & HB & Hr) Hk.
  unfold related in Hr.
  destruct rA as [[va ra]|ea|], rB as [[vb rb]|eb|]; try contradiction.
  - destruct Hr as (<- & Hl & HQ).
    destruct (Hk va vb ra ls1 Hl HQ) as (ls2 & rA2 & rB2 & HA2 & HB2 & Hr2).
    exists (ls1 ++ ls2), rA2, rB2; repeat split.
    + intros w; unfold bind; rewrite HA; apply HA2.
    + intros w; unfold bind; rewrite HB, HB2, emit_emit; reflexivity.
    + unfold related in *.
      destruct rA2 as [[va2 ra2]|ea2|], rB2 as [[vb2 rb2]|eb2|]; auto.
  - destruct Hr as (<- & He).
    exists ls1, (Raise ea), (Raise ea); repeat split; auto;
      intros w; unfold bind; rewrite ?HA, ?HB; reflexivity.
Qed.

(** The call of the hook at a closing brace. *)
Lemma sim_hook P (f : text) (pairs : list (text * value)) (rest : text) :
  List.length rest < List.length s ->
  P (VDict pairs) (collapse (VDict pairs)) (report f pairs) ->
  sim s P (bind (keep_pairs pairs) (fun result => ret (result, rest)))
        (bind (parse_object f (map collapse_pair pairs))
              (fun result => ret (result, rest))).
Proof.
  intros Hl HP.
  exists (report f pairs), (Return (VDict pairs, rest)),
         (Return (collapse (VDict pairs), rest)).
  repeat split; auto.
  intros w; unfold bind; rewrite parse_object_eq, report_collapse.
  reflexivity.
Qed.
End Sim.

Lemma sim_longer (s s' : text) P (mA mB : M (value * text)) :
  List.length s <= List.length s' -> sim s P mA mB -> sim s' P mA mB.
Proof.
  intros Hl (ls & rA & rB & HA & HB & Hr).
  exists ls, rA, rB; repeat split; auto.
  unfold related in *.
  destruct rA as [[va ra]|ea|], rB as [[vb rb]|eb|]; intuition lia.
Qed.

Section DecoderSim.
Import json json_facts.

Variable doc : text.
Variable cfg : interp.
Variable json_file : text.

Let hookB := parse_object json_file.

Section Loops.
Variables scanA scanB : text -> M (value * text).
Hypothesis scan_sim :
  forall s, sim s (tree_post json_file) (scanA s) (scanB s).

Lemma JSONArray_loop_sim (n : nat) :
  forall (values : list value) (s : text),
    List.length s < n ->
    sim s (fun va vb ls =>
             exists new,
               va = VList (values ++ new) /\
               vb = VList (map collapse (values ++ new)) /\
               ls = flat_map (reports json_file) new)
        (JSONArray_loop doc scanA n values s)
        (JSONArray_loop doc scanB n (map collapse values) s).
Proof.
  induction n as [|n' IH]; intros values s Hn; [lia|].
  cbn [JSONArray_loop].
  eapply sim_bind; [apply scan_sim|].
  intros va vb rest ls1 Hl [-> ->]; cbv beta zeta match.
  pose proof (skip_ws_length rest) as Hws.
  destruct (skip_ws rest) as [|c s3] eqn:E;
    [apply sim_raise; reflexivity|].
  cbn [List.length] in Hws.
  destruct (N.eqb c (ch "]")).
  { apply sim_ret; [lia|].
    exists [va]; simpl; rewrite app_nil_r, map_app; auto. }
  destruct (N.eqb c (ch ",")); [|apply sim_raise; reflexivity].
  pose proof (skip_ws_length s3) as Hws3.
  change (map collapse values ++ [collapse va])
    with (map collapse values ++ map collapse [va]).
  rewrite <- map_app.
  eapply sim_post;
    [|eapply sim_longer; [|apply (IH (values ++ [va]) (skip_ws s3)); lia]; lia].
  intros va' vb' ls2 (new & -> & -> & ->).
  exists (va :: new); rewrite <- app_assoc; auto.
Qed.

Lemma JSONArray_sim (s0 s : text) :
  List.length s < List.length s0 ->
  sim s0 (tree_post json_file) (JSONArray doc scanA s) (JSONArray doc scanB s).
Proof.
  intros Hs; unfold JSONArray; cbv zeta.
  pose proof (skip_ws_length s) as Hws.
  assert (Hloop : sim s0 (tree_post json_file)
            (JSONArray_loop doc scanA (S (List.length (skip_ws s))) [] (skip_ws s))
            (JSONArray_loop doc scanB (S (List.length (skip_ws s))) [] (skip_ws s))).
  { eapply sim_post;
      [|eapply sim_longer;
         [|apply (JSONArray_loop_sim (n := S (List.length (skip_ws s))) []); lia]; lia].
    intros va vb ls (new & -> & -> & ->); simpl.
    split; [reflexivity | symmetry; apply reports_VList]. }
  destruct (skip_ws s) as [|c s2] eqn:E; [exact Hloop|].
  cbn [List.length] in Hws.
  destruct (N.eqb c (ch "]")); [|exact Hloop].
  apply sim_ret; [lia | split; reflexivity].
Qed.

Lemma JSONObject_loop_sim (n : nat) :
  forall (pairs : list (text * value)) (begin s : text),
    List.length s < n ->
    sim s (fun va vb ls =>
             exists new,
               va = VDict (pairs ++ new) /\
               vb = collapse (VDict (pairs ++ new)) /\
               ls = flat_map (fun kv => reports json_file (snd kv)) new
                    ++ report json_file (pairs ++ new))
        (JSONObject_loop doc keep_pairs scanA n pairs begin s)
        (JSONObject_loop doc hookB scanB n (map collapse_pair pairs) begin s).
Proof.
  induction n as [|n' IH]; intros pairs begin s Hn; [lia|].
  cbn [JSONObject_loop].
  pose proof (@scanstring_ok doc (List.length s) s (le_n _) begin []) as Hs1.
  eapply sim_lift; [exact Hs1|].
  intros key s1 Hkey; cbv beta zeta match.
  rewrite Hkey in Hs1; unfold scans_ok in Hs1.
  pose proof (skip_ws_length s1) as Hws1.
  destruct (skip_ws s1) as [|c s3] eqn:E1;
    [apply sim_raise; reflexivity|].
  cbn [List.length] in Hws1.
  destruct (N.eqb c (ch ":")); [|apply sim_raise; reflexivity].
  pose proof (skip_ws_length s3) as Hws3.
  eapply sim_bind; [apply scan_sim|].
  intros va vb s4 ls1 Hl4 [-> ->]; cbv beta zeta match.
  pose proof (skip_ws_length s4) as Hws4.
  destruct (skip_ws s4) as [|c' s6] eqn:E4;
    [apply sim_raise; reflexivity|].
  cbn [List.length] in Hws4.
  change (map collapse_pair pairs ++ [(key, collapse va)])
    with (map collapse_pair pairs ++ map collapse_pair [(key, va)]).
  rewrite <- map_app.
  destruct (N.eqb c' (ch "}")).
  { apply sim_hook; [lia|].
    exists [(key, va)]; simpl; rewrite app_nil_r; auto. }
  destruct (N.eqb c' (ch ",")); [|apply sim_raise; reflexivity].
  pose proof (skip_ws_length s6) as Hws6.
  destruct (skip_ws s6) as [|q s8] eqn:E6;
    [apply sim_raise; reflexivity|].
  cbn [List.length] in Hws6.
  destruct (N.eqb q quote); [|apply sim_raise; reflexivity].
  eapply sim_post;
    [|eapply sim_longer;
       [|apply (IH (pairs ++ [(key, va)]) (q :: s8) s8); lia]; lia].
  intros va' vb' ls2 (new & -> & -> & ->).
  exists ((key, va) :: new); rewrite <- !app_assoc; simpl.
  rewrite app_assoc; auto.
Qed.

Lemma JSONObject_sim (s0 s : text) :
  List.length s < List.length s0 ->
  sim s0 (tree_post json_file)
      (JSONObject doc keep_pairs scanA s) (JSONObject doc hookB scanB s).
Proof.
  intros Hs; unfold JSONObject; cbv zeta.
  pose proof (skip_ws_length s) as Hws.
  destruct (skip_ws s) as [|c s2] eqn:E; [apply sim_raise; reflexivity|].
  cbn [List.length] in Hws.
  destruct (N.eqb c (ch "}")).
  { apply (@sim_hook s0 (tree_post json_file) json_file [] s2); [lia|].
    split; [reflexivity | symmetry; apply reports_VDict]. }
  destruct (N.eqb c quote); [|apply sim_raise; reflexivity].
  eapply sim_post;
    [|eapply sim_longer;
       [|apply (@JSONObject_loop_sim (S (List.length (c :: s2))) []
                  (c :: s2) s2); simpl; lia]; lia].
  intros va vb ls (new & -> & -> & ->); simpl.
  split; [reflexivity | symmetry; apply reports_VDict].
Qed.
End Loops.

Lemma sim_atom (s : text) (r : outcome (value * text)) :
  scans_ok s r ->
  match r with
  | Return (v, _) => collapse v = v /\ object_literals v = []
  | _ => True
  end ->
  sim s (tree_post json_file) (lift r) (lift r).
Proof.
  intros Hok Hv; exists [], r, r; repeat split.
  - intros w; unfold lift; rewrite emit_nil; reflexivity.
  - unfold related, scans_ok in *.
    destruct r as [[v rest]|e|]; auto.
    destruct Hv as [Hc Ho].
    repeat split; auto; unfold reports; rewrite Ho; reflexivity.
Qed.

Lemma sim_constant (s : text) (prefix rest : text) (v : value) :
  starts_with prefix s = Some rest ->
  0 < List.length prefix ->
  collapse v = v -> object_literals v = [] ->
  sim s (tree_post json_file) (ret (v, rest)) (ret (v, rest)).
Proof.
  intros H Hp Hc Ho; apply starts_with_length in H.
  apply sim_ret; [lia|].
  split; [auto | unfold reports; rewrite Ho; reflexivity].
Qed.

Lemma scan_once_sim (depth : nat) :
  forall s,
    sim s (tree_post json_file)
        (scan_once doc keep_pairs cfg depth s)
        (scan_once doc hookB cfg depth s).
Proof.
  induction depth as [|depth' IH]; intros s;
    (destruct s as [|c s']; [apply sim_raise; reflexivity|]);
    cbn [scan_once];
    (destruct (N.eqb c quote);
     [ pose proof (@scanstring_ok doc (List.length s') s' (le_n _) (c :: s') [])
         as Hs;
       eapply sim_lift; [exact Hs|];
       intros str rest Hr; rewrite Hr in Hs; unfold scans_ok in Hs;
       apply sim_ret; [simpl; lia | split; reflexivity] |]);
    (destruct (N.eqb c (ch "{"));
     [ first [ apply sim_raise; reflexivity
             | apply JSONObject_sim; [apply IH | simpl; lia] ] |]);
    (destruct (N.eqb c (ch "["));
     [ first [ apply sim_raise; reflexivity
             | apply JSONArray_sim; [apply IH | simpl; lia] ] |]);
    repeat
      (match goal with
       | |- context [match starts_with ?p ?t with _ => _ end] =>
           destruct (starts_with p t) eqn:?;
           [eapply sim_constant; [eassumption | simpl; lia | reflexivity..] |]
       | |- context [match scan_number ?c ?t with _ => _ end] =>
           let E := fresh "E" in
           destruct (scan_number c t) eqn:E;
           [apply scan_number_ok in E; destruct E; apply sim_atom; assumption |]
       end);
    apply sim_raise; reflexivity.
Qed.
End DecoderSim.

(* ================================================================== *)
(** * The decoder: whole documents                                     *)
(* ================================================================== *)

Lemma decode_sim (cfg : interp) (json_file s : text) :
  exists ls rA rB,
    silent (json.decode s keep_pairs cfg) rA /\
    runs (json.decode s (parse_object json_file) cfg) ls rB /\
    related_top json_file rA rB ls.
Proof.
  unfold json.decode.
  destruct (scan_once_sim s cfg json_file (recursion_limit cfg) (json.skip_ws s))
    as (ls & rA & rB & HA & HB & Hr).
  unfold related in Hr.
  destruct rA as [[va ra]|ea|], rB as [[vb rb]|eb|]; try contradiction.
  - destruct Hr as (<- & _ & -> & ->).
    destruct (json.skip_ws ra) as [|c rest'] eqn:E.
    + exists (reports json_file va), (Return va), (Return (collapse va)).
      repeat split; intros w; unfold bind; rewrite ?HA, ?HB, E; reflexivity.
    + exists (reports json_file va),
             (Raise (json.errmsg s ExtraData (c :: rest'))),
             (Raise (json.errmsg s ExtraData (c :: rest'))).
      repeat split; intros w; unfold bind; rewrite ?HA, ?HB, E; reflexivity.
  - destruct Hr as (<- & He).
    exists ls, (Raise ea), (Raise ea).
    repeat split; auto; intros w; unfold bind; rewrite ?HA, ?HB; reflexivity.
Qed.

Lemma loads_sim (cfg : interp) (json_file s : text) :
  exists ls rA rB,
    silent (json.loads cfg s keep_pairs) rA /\
    runs (json.loads cfg s (parse_object json_file)) ls rB /\
    related_top json_file rA rB ls.
Proof.
  unfold json.loads.
  destruct (match s with c :: _ => N.eqb c 0xfeff | [] => false end).
  - exists [], (Raise (JSONDecodeError UnexpectedBOM s 0)),
           (Raise (JSONDecodeError UnexpectedBOM s 0)).
    repeat split; intros w; unfold raise; rewrite ?emit_nil; reflexivity.
  - apply decode_sim.
Qed.

(** Decoding prints the same lines and ends the same way in every world. *)
Lemma loads_frame (cfg : interp) (json_file s : text) (w : world) :
  json.loads cfg s (parse_object json_file) w =
  (emit w (scan_output cfg json_file s), scan_result cfg json_file s).
Proof.
  destruct (loads_sim cfg json_file s) as (ls & rA & rB & _ & HB & _).
  unfold scan_output, scan_result; rewrite !HB; reflexivity.
Qed.

(** The syntax tree decides how decoding with the script's hook ends and
    what it prints. *)
Lemma scan_result_tree (cfg : interp) (json_file s : text) :
  related_top json_file (syntax_tree cfg s) (scan_result cfg json_file s)
              (scan_output cfg json_file s).
Proof.
  destruct (loads_sim cfg json_file s) as (ls & rA & rB & HA & HB & Hr).
  unfold syntax_tree, scan_output, scan_result; rewrite HA, HB; exact Hr.
Qed.

(* ================================================================== *)
(** * One file, then all of them                                       *)
(* ================================================================== *)

Section ScriptFacts.
Variable cfg : interp.
Variable fs : text -> file.

Lemma find_duplicate_keys_readable (json_file s : text) (w : world) :
  fs json_file = Content s ->
  find_duplicate_keys cfg fs json_file w =
  (World (stdout w ++ Checking json_file :: scan_output cfg json_file s
                   ++ diagnostic json_file (scan_result cfg json_file s))
         (opened w ++ [json_file]),
   Return tt).
Proof.
  intros Hfs.
  pose proof (scan_result_tree cfg json_file s) as Hr.
  unfold find_duplicate_keys, bind, print, read_text, try_except.
  rewrite Hfs, loads_frame.
  unfold related_top in Hr.
  destruct (scan_result cfg json_file s) as [v|e|];
    destruct (syntax_tree cfg s) as [va|ea|]; try contradiction;
    unfold emit, ret, diagnostic; simpl.
  - rewrite app_nil_r, <- app_assoc; reflexivity.
  - destruct Hr as (<- & ->); simpl.
    rewrite <- !app_assoc; reflexivity.
Qed.

Lemma find_duplicate_keys_unreadable (json_file : text) (e : exn) (w : world) :
  read_failure fs json_file = Some e ->
  find_duplicate_keys cfg fs json_file w =
  (World (stdout w ++ [Checking json_file]) (opened w ++ [json_file]), Raise e).
Proof.
  unfold read_failure, find_duplicate_keys, bind, print, read_text.
  destruct (fs json_file); intros [= <-]; reflexivity.
Qed.

Lemma readable_failure (json_file : text) :
  readable fs json_file = true <-> read_failure fs json_file = None.
Proof.
  unfold readable, read_failure; destruct (fs json_file);
    split; congruence.
Qed.

(** A file is processed the same way whatever was printed and opened
    before it. *)
Lemma find_duplicate_keys_frame (json_file : text) (w : world) :
  find_duplicate_keys cfg fs json_file w =
  (World (stdout w ++ file_output cfg fs json_file) (opened w ++ [json_file]),
   match read_failure fs json_file with
   | Some e => Raise e
   | None => Return tt
   end).
Proof.
  unfold file_output.
  destruct (fs json_file) as [s|errno|start] eqn:Hfs.
  - rewrite !(find_duplicate_keys_readable _ Hfs).
    unfold read_failure; rewrite Hfs; reflexivity.
  - assert (H : read_failure fs json_file = Some (OSError errno))
      by (unfold read_failure; rewrite Hfs; reflexivity).
    rewrite !(find_duplicate_keys_unreadable json_file _ H), H; reflexivity.
  - assert (H : read_failure fs json_file = Some (UnicodeDecodeError start))
      by (unfold read_failure; rewrite Hfs; reflexivity).
    rewrite !(find_duplicate_keys_unreadable json_file _ H), H; reflexivity.
Qed.

Lemma for_each_files (args : list text) (w : world) :
  for_each args (find_duplicate_keys cfg fs) w =
  (World (stdout w ++ flat_map (file_output cfg fs) (attempted fs args))
         (opened w ++ attempted fs args),
   match first_failure fs args with
   | Some e => Raise e
   | None => Return tt
   end).
Proof.
  revert w; induction args as [|arg args IH]; intros w; simpl.
  - unfold ret; rewrite !app_nil_r; destruct w; reflexivity.
  - unfold bind; rewrite find_duplicate_keys_frame.
    unfold readable, read_failure.
    destruct (fs arg) as [s|errno|start]; simpl;
      [rewrite IH; simpl; rewrite <- !app_assoc; reflexivity
      |rewrite app_nil_r; reflexivity..].
Qed.

Lemma first_failure_readable (args : list text) :
  first_failure fs args = None <-> forallb (readable fs) args = true.
Proof.
  induction args as [|arg args IH]; simpl; [tauto|].
  unfold readable at 1, read_failure.
  destruct (fs arg); simpl; [exact IH | split; discriminate..].
Qed.

Lemma attempted_all (args : list text) :
  forallb (readable fs) args = true -> attempted fs args = args.
Proof.
  induction args as [|arg args IH]; simpl; [reflexivity|].
  destruct (readable fs arg); simpl; [|discriminate].
  intros H; rewrite IH by assumption; reflexivity.
Qed.

Lemma first_failure_Exception (args : list text) (e : exn) :
  first_failure fs args = Some e -> is_Exception e = true.
Proof.
  induction args as [|arg args IH]; simpl; [discriminate|].
  unfold read_failure; destruct (fs arg); auto; intros [= <-]; reflexivity.
Qed.

Lemma run_files (argv : list text) :
  2 <= List.length argv ->
  run cfg fs argv =
  (World (flat_map (file_output cfg fs) (attempted fs (tl argv)))
         (attempted fs (tl argv)),
   Some (if forallb (readable fs) (tl argv) then 0 else 1)).
Proof.
  intros Hl; unfold run, main.
  destruct (Nat.ltb_spec (List.length argv) 2) as [|_]; [lia|].
  rewrite for_each_files; simpl.
  f_equal.
  destruct (first_failure fs (tl argv)) as [e|] eqn:E.
  - apply first_failure_Exception in E as He.
    assert (forallb (readable fs) (tl argv) = false) as ->.
    { destruct (forallb (readable fs) (tl argv)) eqn:F; [|reflexivity].
      apply first_failure_readable in F; congruence. }
    destruct e; simpl in *; congruence.
  - apply first_failure_readable in E; rewrite E; reflexivity.
Qed.
End ScriptFacts.

(* ================================================================== *)
(** * The script on a console                                          *)
(* ================================================================== *)

(** The decoder does with two hooks that act alike what it does with
    one. *)
Section HookExt.
Import json.

Variable doc : text.
Variable cfg : interp.
Variables hook1 hook2 : list (text * value) -> M value.
Hypothesis hook_ext : forall pairs w, hook1 pairs w = hook2 pairs w.

Section Loops.
Variables scan1 scan2 : text -> M (value * text).
Hypothesis scan_ext : forall s w, scan1 s w = scan2 s w.

Lemma JSONArray_loop_ext (n : nat) :
  forall values s w,
    JSONArray_loop doc scan1 n values s w = JSONArray_loop doc scan2 n values s w.
Proof.
  induction n as [|n' IH]; intros values s w; [reflexivity|].
  cbn [JSONArray_loop]; unfold bind; rewrite scan_ext.
  destruct (scan2 s w) as [w1 [[v s1]|e|]]; try reflexivity.
  cbv beta zeta match.
  repeat break_match; try reflexivity; apply IH.
Qed.

Lemma JSONObject_loop_ext (n : nat) :
  forall pairs begin s w,
    JSONObject_loop doc hook1 scan1 n pairs begin s w =
    JSONObject_loop doc hook2 scan2 n pairs begin s w.
Proof.
  induction n as [|n' IH]; intros pairs begin s w; [reflexivity|].
  cbn [JSONObject_loop]; unfold bind, lift.
  destruct (scanstring doc begin [] s) as [[key s1]|e|]; try reflexivity.
  cbv beta zeta match.
  destruct (skip_ws s1) as [|c s3]; [reflexivity|].
  destruct (N.eqb c (ch ":")); [|reflexivity].
  rewrite scan_ext.
  destruct (scan2 (skip_ws s3) w) as [w1 [[v s4]|e|]]; try reflexivity.
  cbv beta zeta match.
  destruct (skip_ws s4) as [|c' s6]; [reflexivity|].
  destruct (N.eqb c' (ch "}")).
  { rewrite hook_ext; reflexivity. }
  destruct (N.eqb c' (ch ",")); [|reflexivity].
  destruct (skip_ws s6) as [|q s8]; [reflexivity|].
  destruct (N.eqb q quote); [apply IH | reflexivity].
Qed.
End Loops.

Lemma scan_once_ext (depth : nat) :
  forall s w,
    scan_once doc hook1 cfg depth s w = scan_once doc hook2 cfg depth s w.
Proof.
  induction depth as [|depth' IH]; intros s w;
    (destruct s as [|c s']; [reflexivity|]);
    cbn [scan_once];
    (destruct (N.eqb c quote); [reflexivity|]);
    (destruct (N.eqb c (ch "{"));
     [ lazymatch goal with
       | |- context [RecursionError] => reflexivity
       | _ => unfold JSONObject; cbv zeta;
              destruct (skip_ws s') as [|c0 s2]; [reflexivity|];
              destruct (N.eqb c0 (ch "}"));
              [unfold bind; rewrite hook_ext; reflexivity|];
              destruct (N.eqb c0 quote);
              [apply JSONObject_loop_ext; exact IH | reflexivity]
       end |]);
    (destruct (N.eqb c (ch "["));
     [ lazymatch goal with
       | |- context [RecursionError] => reflexivity
       | _ => unfold JSONArray; cbv zeta;
              destruct (skip_ws s') as [|c0 s2];
              [apply JSONArray_loop_ext; exact IH|];
              destruct (N.eqb c0 (ch "]"));
              [reflexivity | apply JSONArray_loop_ext; exact IH]
       end |]);
    reflexivity.
Qed.

Lemma loads_ext (w : world) :
  json.loads cfg doc hook1 w = json.loads cfg doc hook2 w.
Proof.
  unfold json.loads.
  destruct (match doc with c :: _ => N.eqb c 0xfeff | [] => false end);
    [reflexivity|].
  unfold json.decode, bind; rewrite scan_once_ext; reflexivity.
Qed.
End HookExt.

Lemma flat_map_ext_on (A B : Type) (f g : A -> list B) (l : list A) :
  (forall x, In x l -> f x = g x) -> flat_map f l = flat_map g l.
Proof.
  induction l as [|a l IH]; simpl; intros H; [reflexivity|].
  rewrite (H a), IH by auto; reflexivity.
Qed.

Section ConsoleFacts.
Variable con : console.
Variable cfg : interp.
Variable fs : text -> file.

Lemma parse_object_on_taken (json_file : text) :
  takes_file con json_file ->
  forall pairs w,
    parse_object_on con json_file pairs w = parse_object json_file pairs w.
Proof.
  intros (_ & Hf & Hd & _) pairs w.
  unfold parse_object_on, parse_object.
  destruct (duplicate_keys pairs) as [|k ks]; [reflexivity|].
  unfold bind, print_on, print; rewrite Hf; simpl; rewrite Hd; reflexivity.
Qed.

(** On a console that takes its lines a file is processed as on one that
    takes every line; when the console refuses the progress line, nothing
    is printed, the file is not opened, and the exception of [print] leaves
    the function. *)
Lemma find_duplicate_keys_on_eq (json_file : text) (w : world) :
  coherent_for con json_file ->
  find_duplicate_keys_on con cfg fs json_file w =
  if con (Checking json_file) then find_duplicate_keys cfg fs json_file w
  else (w, Raise UnicodeEncodeError).
Proof.
  intros Hc; unfold coherent_for in Hc.
  destruct (con (Checking json_file)) eqn:E.
  - specialize (Hc eq_refl).
    unfold find_duplicate_keys_on, find_duplicate_keys.
    unfold bind at 1 3; unfold print_on at 1; unfold print at 1; rewrite E.
    unfold bind, read_text.
    destruct (fs json_file) as [s|errno|start]; try reflexivity.
    unfold try_except, bind.
    rewrite (loads_ext s cfg _ _ (parse_object_on_taken Hc)).
    destruct (json.loads cfg s (parse_object json_file) _) as [w1 [v|e|]];
      try reflexivity.
    destruct (is_Exception e); [|reflexivity].
    destruct Hc as (_ & _ & _ & He).
    unfold print_on, print; rewrite He; reflexivity.
  - unfold find_duplicate_keys_on, bind, print_on; rewrite E; reflexivity.
Qed.

Lemma find_duplicate_keys_on_frame (json_file : text) (w : world) :
  coherent_for con json_file ->
  find_duplicate_keys_on con cfg fs json_file w =
  if con (Checking json_file) then
    (World (stdout w ++ file_output cfg fs json_file) (opened w ++ [json_file]),
     match read_failure fs json_file with
     | Some e => Raise e
     | None => Return tt
     end)
  else (w, Raise UnicodeEncodeError).
Proof.
  intros Hc; rewrite find_duplicate_keys_on_eq by assumption.
  rewrite find_duplicate_keys_frame; reflexivity.
Qed.

Lemma file_output_on_eq (json_file : text) :
  coherent_for con json_file ->
  file_output_on con cfg fs json_file =
  if con (Checking json_file) then file_output cfg fs json_file else [].
Proof.
  intros Hc; unfold file_output_on, file_output.
  rewrite find_duplicate_keys_on_eq by assumption.
  destruct (con (Checking json_file)); reflexivity.
Qed.

Lemma attempted_on_started (args : list text) :
  forall f, In f (attempted_on con fs args) -> con (Checking f) = true.
Proof.
  induction args as [|a args IH]; simpl; [tauto|].
  destruct (con (Checking a)) eqn:E; [|simpl; tauto].
  destruct (readable fs a); simpl; intros f [<-|H]; auto; contradiction.
Qed.

Lemma flat_map_file_output_on (args : list text) :
  (forall f, In f args -> coherent_for con f) ->
  flat_map (file_output_on con cfg fs) (attempted_on con fs args) =
  flat_map (file_output cfg fs) (attempted_on con fs args).
Proof.
  intros Hc; apply flat_map_ext_on; intros f Hf.
  assert (In f args) as Hin.
  { clear - Hf; induction args as [|a args IH]; simpl in *; [tauto|].
    destruct (con (Checking a)); [|contradiction].
    destruct (readable fs a); simpl in Hf; intuition. }
  rewrite file_output_on_eq by (apply Hc, Hin).
  rewrite (attempted_on_started _ _ Hf); reflexivity.
Qed.

Lemma for_each_on_files (args : list text) :
  (forall f, In f args -> coherent_for con f) ->
  forall w,
    for_each args (find_duplicate_keys_on con cfg fs) w =
    (World (stdout w ++ flat_map (file_output cfg fs) (attempted_on con fs args))
           (opened w ++ attempted_on con fs args),
     match first_failure_on con fs args with
     | Some e => Raise e
     | None => Return tt
     end).
Proof.
  induction args as [|arg args IH]; intros Hc w; simpl.
  - unfold ret; rewrite !app_nil_r; destruct w; reflexivity.
  - unfold bind.
    rewrite find_duplicate_keys_on_frame by (apply Hc; left; reflexivity).
    destruct (con (Checking arg)); simpl;
      [|rewrite !app_nil_r; destruct w; reflexivity].
    unfold readable, read_failure.
    destruct (fs arg) as [s|errno|start]; simpl;
      [rewrite IH by (intros f Hf; apply Hc; right; exact Hf);
       simpl; rewrite <- !app_assoc; reflexivity
      |rewrite app_nil_r; reflexivity..].
Qed.

Lemma first_failure_on_passes (args : list text) :
  first_failure_on con fs args = None <-> forallb (passes con fs) args = true.
Proof.
  induction args as [|arg args IH]; simpl; [tauto|].
  unfold passes at 1, readable, read_failure.
  destruct (con (Checking arg)); simpl; [|split; discriminate].
  destruct (fs arg); simpl; [exact IH | split; discriminate..].
Qed.

Lemma first_failure_on_Exception (args : list text) (e : exn) :
  first_failure_on con fs args = Some e -> is_Exception e = true.
Proof.
  induction args as [|arg args IH]; simpl; [discriminate|].
  destruct (con (Checking arg)); [|intros [= <-]; reflexivity].
  unfold read_failure; destruct (fs arg); auto; intros [= <-]; reflexivity.
Qed.

Lemma attempted_on_all (args : list text) :
  forallb (passes con fs) args = true -> attempted_on con fs args = args.
Proof.
  induction args as [|arg args IH]; simpl; [reflexivity|].
  unfold passes at 1.
  destruct (con (Checking arg)); simpl; [|discriminate].
  destruct (readable fs arg); simpl; [|discriminate].
  intros H; rewrite IH by assumption; reflexivity.
Qed.

Lemma attempted_on_app (l1 l2 : list text) :
  forallb (passes con fs) l1 = true ->
  attempted_on con fs (l1 ++ l2) = l1 ++ attempted_on con fs l2.
Proof.
  induction l1 as [|a l1 IH]; simpl; [reflexivity|].
  unfold passes at 1.
  destruct (con (Checking a)); simpl; [|discriminate].
  destruct (readable fs a); simpl; [|discriminate].
  intros H; rewrite IH by assumption; reflexivity.
Qed.

Lemma run_on_files (argv : list text) :
  2 <= List.length argv ->
  (forall f, In f (tl argv) -> coherent_for con f) ->
  run_on con cfg fs argv =
  (World (flat_map (file_output cfg fs) (attempted_on con fs (tl argv)))
         (attempted_on con fs (tl argv)),
   Some (if forallb (passes con fs) (tl argv) then 0 else 1)).
Proof.
  intros Hl Hc; unfold run_on, main_on.
  destruct (Nat.ltb_spec (List.length argv) 2) as [|_]; [lia|].
  rewrite for_each_on_files by assumption; simpl.
  f_equal.
  destruct (first_failure_on con fs (tl argv)) as [e|] eqn:E.
  - apply first_failure_on_Exception in E as He.
    assert (forallb (passes con fs) (tl argv) = false) as ->.
    { destruct (forallb (passes con fs) (tl argv)) eqn:F; [|reflexivity].
      apply first_failure_on_passes in F; congruence. }
    destruct e; simpl in *; congruence.
  - apply first_failure_on_passes in E; rewrite E; reflexivity.
Qed.
End ConsoleFacts.

(** The script on a console that takes every line is the script with the
    [print] that never raises. *)
Lemma find_duplicate_keys_on_accepting
      (cfg : interp) (fs : text -> file) (json_file : text) :
  find_duplicate_keys_on (fun _ => true) cfg fs json_file =
  find_duplicate_keys cfg fs json_file.
Proof. reflexivity. Qed.

Lemma run_on_accepting (cfg : interp) (fs : text -> file) (argv : list text) :
  run_on (fun _ => true) cfg fs argv = run cfg fs argv.
Proof. reflexivity. Qed.

Lemma printable_utf8_takes_file (json_file : text) :
  coherent_for utf8_console json_file.
Proof.
  intros H; simpl in H; repeat split; simpl; auto.
Qed.

(* ================================================================== *)
(** * Properties of the script                                         *)
(* ================================================================== *)

(** On a console that takes every line: what [find_duplicate_keys] does
    with a file, by what is found at its path. *)
Lemma find_duplicate_keys_cases
      (cfg : interp) (fs : text -> file) (json_file : text) (w : world) :
  find_duplicate_keys cfg fs json_file w =
  match fs json_file with
  | Content s =>
      (World (stdout w ++ Checking json_file :: scan_output cfg json_file s
                       ++ diagnostic json_file (scan_result cfg json_file s))
             (opened w ++ [json_file]),
       Return tt)
  | CannotOpen errno =>
      (World (stdout w ++ [Checking json_file]) (opened w ++ [json_file]),
       Raise (OSError errno))
  | NotUTF8 start =>
      (World (stdout w ++ [Checking json_file]) (opened w ++ [json_file]),
       Raise (UnicodeDecodeError start))
  end.
Proof.
  destruct (fs json_file) as [s|errno|start] eqn:Hfs.
  - apply find_duplicate_keys_readable, Hfs.
  - apply find_duplicate_keys_unreadable.
    unfold read_failure; rewrite Hfs; reflexivity.
  - apply find_duplicate_keys_unreadable.
    unfold read_failure; rewrite Hfs; reflexivity.
Qed.

(** C1, as amended.  On a console that takes every line about a file whose
    progress line it takes (a UTF-8 console is one), [find_duplicate_keys]
    does this.  When the console refuses the progress line, because it
    cannot encode the file name, the [UnicodeEncodeError] of that first
    [print] is raised to the caller: nothing is printed and the file is not
    opened.  Otherwise the progress line is printed and the file is opened
    once.  When the file can then be opened and decoded as UTF-8 the
    function returns normally whatever happens while the content is parsed:
    a failure of the parse is caught and printed as an "Error parsing" line
    after what the hook printed.  When the file cannot be opened, or is not
    UTF-8, nothing catches the exception of [open] or [read]: it is raised
    to the caller. *)
Theorem find_duplicate_keys_catches_parse_failures_only
        (con : console) (cfg : interp) (fs : text -> file) (json_file : text)
        (w : world) :
  coherent_for con json_file ->
  find_duplicate_keys_on con cfg fs json_file w =
  if con (Checking json_file) then
    match fs json_file with
    | Content s =>
        (World (stdout w ++ Checking json_file :: scan_output cfg json_file s
                         ++ diagnostic json_file (scan_result cfg json_file s))
               (opened w ++ [json_file]),
         Return tt)
    | CannotOpen errno =>
        (World (stdout w ++ [Checking json_file]) (opened w ++ [json_file]),
         Raise (OSError errno))
    | NotUTF8 start =>
        (World (stdout w ++ [Checking json_file]) (opened w ++ [json_file]),
         Raise (UnicodeDecodeError start))
    end
  else (w, Raise UnicodeEncodeError).
Proof.
  intros Hc; rewrite find_duplicate_keys_on_eq by assumption.
  rewrite find_duplicate_keys_cases; reflexivity.
Qed.

Lemma find_duplicate_keys_catches_parse_failures_only_witness :
  find_duplicate_keys_on utf8_console cpython demo_fs (lit "bad.json") (World [] []) =
  (World [Checking (lit "bad.json");
          ErrorParsing (lit "bad.json")
            (JSONDecodeError ExpectingPropertyName (json_lit "{'a': 1,") 8)]
         [lit "bad.json"],
   Return tt) /\
  find_duplicate_keys_on utf8_console cpython demo_fs (lit "missing.json") (World [] []) =
  (World [Checking (lit "missing.json")] [lit "missing.json"], Raise (OSError 2)) /\
  find_duplicate_keys_on utf8_console cpython demo_fs odd_name (World [] []) =
  (World [] [], Raise UnicodeEncodeError).
Proof.
  split; [|split].
  - apply (@find_duplicate_keys_catches_parse_failures_only
             utf8_console cpython demo_fs (lit "bad.json") (World [] [])).
    unfold coherent_for, takes_file; simpl; auto.
  - apply (@find_duplicate_keys_catches_parse_failures_only
             utf8_console cpython demo_fs (lit "missing.json") (World [] [])).
    unfold coherent_for, takes_file; simpl; auto.
  - apply (@find_duplicate_keys_catches_parse_failures_only
             utf8_console cpython demo_fs odd_name (World [] [])).
    unfold coherent_for, takes_file; simpl; auto.
Defined.

(** C1 as stated fails: on a path that cannot be opened the exception of
    [open] leaves [find_duplicate_keys]. *)
Lemma missing_file_raises_to_the_caller :
  find_duplicate_keys cpython demo_fs (lit "missing.json") (World [] []) =
  (World [Checking (lit "missing.json")] [lit "missing.json"], Raise (OSError 2)).
Proof. vm_compute; reflexivity. Qed.

(** C2, as amended.  On a console that takes every line about a file
    whose progress line it takes, a run with one or more file arguments ends
    with exit status 0 when every file gets through, that is, when its name
    can be printed and it can be opened and decoded as UTF-8, whatever parse
    errors are met; it ends with exit status 1 when one of them does not. *)
Theorem exit_status_of_a_run
        (con : console) (cfg : interp) (fs : text -> file) (argv : list text) :
  2 <= List.length argv ->
  (forall f, In f (tl argv) -> coherent_for con f) ->
  snd (run_on con cfg fs argv) =
  Some (if forallb (passes con fs) (tl argv) then 0 else 1).
Proof. intros H Hc; rewrite run_on_files by assumption; reflexivity. Qed.

Lemma exit_status_of_a_run_witness :
  snd (run_on utf8_console cpython demo_fs [prog; lit "bad.json"; lit "dup.json"]) =
  Some 0 /\
  snd (run_on utf8_console cpython
         (fun _ => Content (lit "{}")) [prog; odd_name; lit "dup.json"]) =
  Some 1.
Proof.
  split.
  - apply (@exit_status_of_a_run utf8_console cpython demo_fs
             [prog; lit "bad.json"; lit "dup.json"]); [simpl; lia|].
    intros f _; unfold coherent_for, takes_file; simpl; auto.
  - apply (@exit_status_of_a_run utf8_console cpython
             (fun _ => Content (lit "{}")) [prog; odd_name; lit "dup.json"]);
      [simpl; lia|].
    intros f _; unfold coherent_for, takes_file; simpl; auto.
Defined.

(** C2 as stated fails: a run on a file that cannot be opened ends with
    exit status 1. *)
Lemma missing_file_exit_status_1 :
  snd (run cpython demo_fs [prog; lit "missing.json"]) = Some 1.
Proof. vm_compute; reflexivity. Qed.



(** C4.  For an object literal whose keys are all distinct, and so for one
    with no key or a single key, the hook finds no duplicate and prints
    nothing.  For an object literal in which a key occurs twice or more,
    that key is listed exactly once in the duplicate list, and the hook
    prints the file line and that list. *)
Theorem distinct_keys_no_report_repeated_key_listed_once
        (json_file : text) (pairs : list (text * value)) (w : world) :
  (NoDup (map fst pairs) ->
   duplicate_keys pairs = [] /\
   parse_object json_file pairs w = (w, Return (VDict (dict pairs)))) /\
  (List.length pairs <= 1 ->
   parse_object json_file pairs w = (w, Return (VDict (dict pairs)))) /\
  (forall k, 2 <= occurrences k (map fst pairs) ->
   occurrences k (duplicate_keys pairs) = 1 /\
   parse_object json_file pairs w =
   (emit w [FileLine json_file; FoundDuplicates (duplicate_keys pairs)],
    Return (VDict (dict pairs)))).
Proof.
  assert (Hnodup : NoDup (map fst pairs) ->
                   duplicate_keys pairs = [] /\
                   parse_object json_file pairs w = (w, Return (VDict (dict pairs)))).
  { intros Hn.
    assert (E : duplicate_keys pairs = []).
    { rewrite duplicate_keys_eq; apply filter_none; intros k _.
      apply Nat.ltb_ge, occurrences_NoDup, Hn. }
    split; [exact E|].
    rewrite parse_object_eq; unfold report; rewrite E, emit_nil; reflexivity. }
  split; [exact Hnodup|]; split.
  - intros Hl; apply Hnodup.
    destruct pairs as [|p [|p' pairs']]; simpl in *; try lia;
      repeat constructor; simpl; tauto.
  - intros k Hk; split.
    + apply occurrences_NoDup_In;
        [apply duplicate_keys_NoDup | apply duplicate_keys_In, Hk].
    + rewrite parse_object_eq; unfold report.
      apply duplicate_keys_In in Hk.
      destruct (duplicate_keys pairs); [contradiction | reflexivity].
Qed.

Lemma distinct_keys_no_report_repeated_key_listed_once_witness :
  (duplicate_keys [(key_a, VInt 1); (key_b, VInt 2)] = [] /\
   parse_object (lit "f.json") [(key_a, VInt 1); (key_b, VInt 2)] (World [] []) =
   (World [] [], Return (VDict (dict [(key_a, VInt 1); (key_b, VInt 2)])))) /\
  parse_object (lit "f.json") [(key_a, VInt 1)] (World [] []) =
  (World [] [], Return (VDict (dict [(key_a, VInt 1)]))) /\
  (occurrences key_a
     (duplicate_keys [(key_a, VInt 1); (key_b, VInt 2); (key_a, VInt 3); (key_a, VNone)]) = 1 /\
   parse_object (lit "f.json")
     [(key_a, VInt 1); (key_b, VInt 2); (key_a, VInt 3); (key_a, VNone)] (World [] []) =
   (emit (World [] [])
      [FileLine (lit "f.json");
       FoundDuplicates
         (duplicate_keys [(key_a, VInt 1); (key_b, VInt 2); (key_a, VInt 3); (key_a, VNone)])],
    Return (VDict (dict [(key_a, VInt 1); (key_b, VInt 2); (key_a, VInt 3); (key_a, VNone)])))).
Proof.
  split; [|split].
  - apply (proj1 (@distinct_keys_no_report_repeated_key_listed_once
                    (lit "f.json") [(key_a, VInt 1); (key_b, VInt 2)] (World [] []))).
    repeat constructor; simpl; intuition discriminate.
  - apply (proj1 (proj2 (@distinct_keys_no_report_repeated_key_listed_once
                           (lit "f.json") [(key_a, VInt 1)] (World [] [])))).
    simpl; lia.
  - apply (proj2 (proj2 (@distinct_keys_no_report_repeated_key_listed_once
                           (lit "f.json")
                           [(key_a, VInt 1); (key_b, VInt 2); (key_a, VInt 3); (key_a, VNone)]
                           (World [] []))) key_a).
    vm_compute; lia.
Defined.

(** C5.  The hook always returns, and what it returns is a dictionary: no
    key twice, the keys of the pairs, each bound to the value of its last
    occurrence.  The value of a whole document is therefore its syntax tree
    with every object literal collapsed that way, and for
    [{"a": 1, "b": 2, "a": 3}] the value of ["a"] is 3. *)
Theorem hook_returns_dict_last_write_wins
        (cfg : interp) (json_file : text) (pairs : list (text * value)) (w : world) :
  parse_object json_file pairs w =
  (emit w (report json_file pairs), Return (VDict (dict pairs))) /\
  NoDup (map fst (dict pairs)) /\
  (forall k, In k (map fst (dict pairs)) <-> In k (map fst pairs)) /\
  (forall l1 k v l2,
      pairs = l1 ++ (k, v) :: l2 -> ~ In k (map fst l2) ->
      dict_get (dict pairs) k = Some v) /\
  (forall s tree,
      syntax_tree cfg s = Return tree ->
      scan_result cfg json_file s = Return (collapse tree)) /\
  scan_result cpython json_file (json_lit "{'a': 1, 'b': 2, 'a': 3}") =
  Return (VDict [(key_a, VInt 3); (key_b, VInt 2)]).
Proof.
  split; [apply parse_object_eq|].
  split; [apply dict_NoDup|].
  split; [intros k; apply dict_In|].
  split; [intros l1 k v l2 -> H; apply dict_last_wins, H|].
  split.
  - intros s tree Ht.
    pose proof (scan_result_tree cfg json_file s) as Hr.
    rewrite Ht in Hr; unfold related_top in Hr.
    destruct (scan_result cfg json_file s); try contradiction.
    destruct Hr as [-> _]; reflexivity.
  - pose proof (scan_result_tree cpython json_file
                  (json_lit "{'a': 1, 'b': 2, 'a': 3}")) as Hr.
    assert (Ht : syntax_tree cpython (json_lit "{'a': 1, 'b': 2, 'a': 3}") =
                 Return (VDict [(key_a, VInt 1); (key_b, VInt 2); (key_a, VInt 3)]))
      by (vm_compute; reflexivity).
    rewrite Ht in Hr; unfold related_top in Hr.
    destruct (scan_result _ _ _); try contradiction.
    destruct Hr as [-> _]; vm_compute; reflexivity.
Qed.

Lemma hook_returns_dict_last_write_wins_witness :
  dict_get (dict [(key_a, VInt 1); (key_b, VInt 2); (key_a, VInt 3)]) key_a =
  Some (VInt 3) /\
  scan_result cpython (lit "abc.json") (json_lit "{'a': 1, 'b': 2, 'a': 3}") =
  Return (collapse (VDict [(key_a, VInt 1); (key_b, VInt 2); (key_a, VInt 3)])).
Proof.
  pose proof (@hook_returns_dict_last_write_wins
                cpython (lit "abc.json")
                [(key_a, VInt 1); (key_b, VInt 2); (key_a, VInt 3)] (World [] []))
    as (_ & _ & _ & Hlast & Htree & _).
  split.
  - apply (Hlast [(key_a, VInt 1); (key_b, VInt 2)] key_a (VInt 3) []).
    + reflexivity.
    + simpl; tauto.
  - apply Htree; vm_compute; reflexivity.
Defined.



(** C7.  Without a file argument the script prints the usage message,
    opens no file and exits with status 1. *)
Theorem no_argument_prints_usage_and_exits_1
        (cfg : interp) (fs : text -> file) (argv : list text) :
  List.length argv < 2 ->
  run cfg fs argv = (World [Usage] [], Some 1).
Proof.
  intros H; unfold run, main.
  destruct (Nat.ltb_spec (List.length argv) 2) as [_|]; [reflexivity | lia].
Qed.

Lemma no_argument_prints_usage_and_exits_1_witness :
  run cpython demo_fs [prog] = (World [Usage] [], Some 1).
Proof.
  apply (@no_argument_prints_usage_and_exits_1 cpython demo_fs [prog]).
  simpl; lia.
Defined.

(** C8, as amended.  On a console that takes every line about a file
    whose progress line it takes, the files are processed in the order of
    the command line, none more than once, up to the first one that does not
    get through: a file that cannot be opened or decoded is opened and is
    the last one attempted, a file whose name cannot be printed is not
    opened at all, and the arguments after either are not attempted.  When
    every file gets through, each argument is attempted exactly once.  What
    is printed is, file after file, what [find_duplicate_keys] prints for
    that file on an empty console: nothing is carried from one file to the
    next. *)
Theorem files_are_processed_in_order_until_one_fails
        (con : console) (cfg : interp) (fs : text -> file) (argv : list text) :
  2 <= List.length argv ->
  (forall f, In f (tl argv) -> coherent_for con f) ->
  fst (run_on con cfg fs argv) =
  World (flat_map (file_output_on con cfg fs) (attempted_on con fs (tl argv)))
        (attempted_on con fs (tl argv)) /\
  (forallb (passes con fs) (tl argv) = true ->
   attempted_on con fs (tl argv) = tl argv).
Proof.
  intros H Hc; rewrite run_on_files by assumption.
  rewrite flat_map_file_output_on by assumption.
  split; [reflexivity | apply attempted_on_all].
Qed.

Lemma files_are_processed_in_order_until_one_fails_witness :
  (fst (run_on utf8_console cpython demo_fs [prog; lit "bad.json"; lit "dup.json"]) =
   World (flat_map (file_output_on utf8_console cpython demo_fs)
                   (attempted_on utf8_console demo_fs [lit "bad.json"; lit "dup.json"]))
         (attempted_on utf8_console demo_fs [lit "bad.json"; lit "dup.json"]) /\
   attempted_on utf8_console demo_fs [lit "bad.json"; lit "dup.json"] =
   [lit "bad.json"; lit "dup.json"]) /\
  attempted_on utf8_console demo_fs [lit "bad.json"; odd_name; lit "dup.json"] =
  [lit "bad.json"] /\
  attempted_on utf8_console demo_fs [lit "bad.json"; lit "missing.json"; lit "dup.json"] =
  [lit "bad.json"; lit "missing.json"].
Proof.
  split; [|split; vm_compute; reflexivity].
  destruct (@files_are_processed_in_order_until_one_fails
              utf8_console cpython demo_fs [prog; lit "bad.json"; lit "dup.json"])
    as [Hrun Hall]; [simpl; lia | |].
  - intros f _; unfold coherent_for, takes_file; simpl; auto.
  - split; [exact Hrun | apply Hall; vm_compute; reflexivity].
Defined.

(** C8 as stated fails: after a file that cannot be opened, the next
    argument is never attempted. *)
Lemma file_after_a_missing_one_is_not_attempted :
  opened (fst (run cpython demo_fs [prog; lit "missing.json"; lit "dup.json"])) =
  [lit "missing.json"].
Proof. vm_compute; reflexivity. Qed.

(** C9.  Two object literals with the same sequence of keys get the same
    duplicate list and the same lines from the hook, whatever their
    values. *)
Theorem duplicates_depend_on_the_keys_only
        (json_file : text) (pairs pairs' : list (text * value)) (w : world) :
  map fst pairs = map fst pairs' ->
  duplicate_keys pairs = duplicate_keys pairs' /\
  fst (parse_object json_file pairs w) = fst (parse_object json_file pairs' w) /\
  (report json_file pairs = [] <-> report json_file pairs' = []).
Proof.
  intros H.
  pose proof (duplicate_keys_same_keys pairs pairs' H) as E.
  assert (R : report json_file pairs = report json_file pairs')
    by (unfold report; rewrite E; reflexivity).
  split; [exact E|]; split.
  - rewrite !parse_object_eq, R; reflexivity.
  - rewrite R; tauto.
Qed.

Lemma duplicates_depend_on_the_keys_only_witness :
  duplicate_keys [(key_a, VInt 1); (key_a, VInt 2)] =
  duplicate_keys [(key_a, VStr key_b); (key_a, VList [])] /\
  fst (parse_object (lit "f.json") [(key_a, VInt 1); (key_a, VInt 2)] (World [] [])) =
  fst (parse_object (lit "f.json") [(key_a, VStr key_b); (key_a, VList [])] (World [] [])) /\
  (report (lit "f.json") [(key_a, VInt 1); (key_a, VInt 2)] = [] <->
   report (lit "f.json") [(key_a, VStr key_b); (key_a, VList [])] = []).
Proof.
  apply (@duplicates_depend_on_the_keys_only
           (lit "f.json") [(key_a, VInt 1); (key_a, VInt 2)]
           [(key_a, VStr key_b); (key_a, VList [])] (World [] [])).
  reflexivity.
Defined.

(** C10.  The duplicate list is in the order in which the repeated keys
    first appear among the keys of the object: it is the list of the
    distinct keys, each at its first appearance, restricted to those that
    occur more than once, so that the index of first appearance increases
    along it. *)
Theorem duplicates_in_order_of_first_appearance
        (V : Type) (pairs : list (text * V)) :
  duplicate_keys pairs =
  filter (fun k => Nat.ltb 1 (occurrences k (map fst pairs)))
         (distinct (map fst pairs)) /\
  StronglySorted
    (fun a b => first_index a (map fst pairs) < first_index b (map fst pairs))
    (duplicate_keys pairs).
Proof.
  split; [apply duplicate_keys_eq|].
  rewrite duplicate_keys_eq.
  apply StronglySorted_filter, distinct_sorted.
Qed.

Example duplicates_first_appearance_example :
  duplicate_keys [(key_b, 0); (key_a, 1); (key_c, 2); (key_a, 3); (key_b, 4); (key_a, 5)] =
  [key_b; key_a].
Proof. vm_compute; reflexivity. Qed.

(* ================================================================== *)
(** * Further properties                                               *)
(* ================================================================== *)

Lemma report_blocks_app (f : text) (l1 l2 : list line) :
  report_blocks f l1 -> report_blocks f l2 -> report_blocks f (l1 ++ l2).
Proof.
  induction 1 as [|d ls Hd Hn Hls IH]; intros H2; simpl;
    [assumption | constructor; auto].
Qed.

Lemma report_blocks_report (f : text) (pairs : list (text * value)) :
  report_blocks f (report f pairs).
Proof.
  unfold report.
  pose proof (duplicate_keys_NoDup pairs) as Hn.
  destruct (duplicate_keys pairs) as [|k ks] eqn:E; constructor;
    [discriminate | assumption | constructor].
Qed.

Section Reporting.
Variable json_file : text.

Lemma reporting_ret (A : Type) (a : A) : reporting json_file (ret a).
Proof.
  intros w; exists []; rewrite emit_nil; split; [reflexivity | constructor].
Qed.

Lemma reporting_raise (A : Type) (e : exn) : reporting json_file (@raise A e).
Proof.
  intros w; exists []; rewrite emit_nil; split; [reflexivity | constructor].
Qed.

Lemma reporting_lift (A : Type) (r : outcome A) : reporting json_file (lift r).
Proof.
  intros w; exists []; rewrite emit_nil; split; [reflexivity | constructor].
Qed.

Lemma reporting_out_of_fuel (A : Type) : reporting json_file (@out_of_fuel A).
Proof.
  intros w; exists []; rewrite emit_nil; split; [reflexivity | constructor].
Qed.

Lemma reporting_bind (A B : Type) (m : M A) (k : A -> M B) :
  reporting json_file m -> (forall a, reporting json_file (k a)) ->
  reporting json_file (bind m k).
Proof.
  intros Hm Hk w; unfold bind.
  destruct (Hm w) as (ls1 & E1 & B1).
  destruct (m w) as [w1 [a|e|]]; simpl in E1; subst w1;
    try (exists ls1; split; [reflexivity | assumption]).
  destruct (Hk a (emit w ls1)) as (ls2 & E2 & B2).
  exists (ls1 ++ ls2); rewrite E2, emit_emit.
  split; [reflexivity | apply report_blocks_app; assumption].
Qed.

Lemma reporting_parse_object (pairs : list (text * value)) :
  reporting json_file (parse_object json_file pairs).
Proof.
  intros w; exists (report json_file pairs); rewrite parse_object_eq.
  split; [reflexivity | apply report_blocks_report].
Qed.

Ltac reporting_step :=
  first [ apply reporting_ret
        | apply reporting_raise
        | apply reporting_lift
        | apply reporting_out_of_fuel
        | apply reporting_parse_object
        | apply reporting_bind; [|intros ?]
        | progress cbv beta zeta
        | break_match ].

Section Loops.
Variable doc : text.
Variable scan : text -> M (value * text).
Hypothesis scan_reporting : forall s, reporting json_file (scan s).

Lemma JSONArray_loop_reporting (n : nat) :
  forall values s,
    reporting json_file (json.JSONArray_loop doc scan n values s).
Proof.
  induction n as [|n' IH]; intros values s; cbn [json.JSONArray_loop];
    repeat first [apply scan_reporting | apply IH | reporting_step].
Qed.

Lemma JSONObject_loop_reporting (n : nat) :
  forall pairs begin s,
    reporting json_file
      (json.JSONObject_loop doc (parse_object json_file) scan n pairs begin s).
Proof.
  induction n as [|n' IH]; intros pairs begin s; cbn [json.JSONObject_loop];
    repeat first [apply scan_reporting | apply IH | reporting_step].
Qed.
End Loops.

Lemma scan_once_reporting (doc : text) (cfg : interp) (depth : nat) :
  forall s,
    reporting json_file
      (json.scan_once doc (parse_object json_file) cfg depth s).
Proof.
  induction depth as [|depth' IH]; intros s;
    (destruct s as [|c s']; [apply reporting_raise|]);
    cbn [json.scan_once]; unfold json.JSONObject, json.JSONArray;
    repeat first [ apply JSONArray_loop_reporting; assumption
                 | apply JSONObject_loop_reporting; assumption
                 | reporting_step ].
Qed.

Lemma loads_reporting (cfg : interp) (s : text) :
  reporting json_file (json.loads cfg s (parse_object json_file)).
Proof.
  unfold json.loads, json.decode.
  repeat first [apply scan_once_reporting | reporting_step].
Qed.
End Reporting.

Lemma scan_output_blocks (cfg : interp) (json_file s : text) :
  report_blocks json_file (scan_output cfg json_file s).
Proof.
  destruct (loads_reporting json_file cfg s (World [] [])) as (ls & E & B).
  unfold scan_output; rewrite E; exact B.
Qed.







(** X3.  On a console that takes every line about a file whose progress
    line it takes, checking two lists of files in one run prints and opens
    what checking them in two runs does, one after the other, and ends with
    the status of the second run, provided every file of the first list gets
    through (its name can be printed and it can be read). *)
Theorem one_run_is_two_runs_in_a_row
        (con : console) (cfg : interp) (fs : text -> file) (argv0 : text)
        (l1 l2 : list text) :
  l1 <> [] -> l2 <> [] ->
  (forall f, In f (l1 ++ l2) -> coherent_for con f) ->
  forallb (passes con fs) l1 = true ->
  run_on con cfg fs (argv0 :: l1 ++ l2) =
  (World (stdout (fst (run_on con cfg fs (argv0 :: l1)))
          ++ stdout (fst (run_on con cfg fs (argv0 :: l2))))
         (opened (fst (run_on con cfg fs (argv0 :: l1)))
          ++ opened (fst (run_on con cfg fs (argv0 :: l2)))),
   snd (run_on con cfg fs (argv0 :: l2))).
Proof.
  intros H1 H2 Hc Hr.
  assert (L1 : 2 <= List.length (argv0 :: l1))
    by (destruct l1; [contradiction | simpl; lia]).
  assert (L2 : 2 <= List.length (argv0 :: l2))
    by (destruct l2; [contradiction | simpl; lia]).
  assert (L : 2 <= List.length (argv0 :: l1 ++ l2))
    by (simpl in *; rewrite length_app; lia).
  rewrite !run_on_files; try assumption;
    try (simpl; intros f Hf; apply Hc, in_or_app; auto).
  simpl.
  rewrite attempted_on_app, (attempted_on_all con fs l1), flat_map_app,
    forallb_app, Hr by assumption.
  reflexivity.
Qed.

Lemma one_run_is_two_runs_in_a_row_witness :
  run_on utf8_console cpython demo_fs (prog :: [lit "bad.json"] ++ [lit "dup.json"]) =
  (World (stdout (fst (run_on utf8_console cpython demo_fs [prog; lit "bad.json"]))
          ++ stdout (fst (run_on utf8_console cpython demo_fs [prog; lit "dup.json"])))
         (opened (fst (run_on utf8_console cpython demo_fs [prog; lit "bad.json"]))
          ++ opened (fst (run_on utf8_console cpython demo_fs [prog; lit "dup.json"]))),
   snd (run_on utf8_console cpython demo_fs [prog; lit "dup.json"])).
Proof.
  apply (@one_run_is_two_runs_in_a_row
           utf8_console cpython demo_fs prog [lit "bad.json"] [lit "dup.json"]);
    [discriminate | discriminate | | vm_compute; reflexivity].
  intros f _; unfold coherent_for, takes_file; simpl; auto.
Defined.

(** X4.  On a console that takes every line about a file whose progress
    line it takes, every run ends, and its exit status is 0 or 1: it is 0
    exactly when at least one file argument was given and every file
    argument gets through (its name can be printed and it can be read). *)
Theorem exit_status_is_0_or_1
        (con : console) (cfg : interp) (fs : text -> file) (argv : list text) :
  (forall f, In f (tl argv) -> coherent_for con f) ->
  snd (run_on con cfg fs argv) =
  Some (if Nat.leb 2 (List.length argv) && forallb (passes con fs) (tl argv)
        then 0 else 1).
Proof.
  intros Hc.
  destruct (Nat.leb_spec 2 (List.length argv)) as [H|H]; simpl.
  - rewrite run_on_files by assumption; reflexivity.
  - unfold run_on, main_on.
    destruct (Nat.ltb_spec (List.length argv) 2) as [_|]; [|lia].
    unfold bind, print_on, raise; destruct (con Usage); reflexivity.
Qed.

Lemma exit_status_is_0_or_1_witness :
  snd (run_on utf8_console cpython demo_fs [prog]) = Some 1 /\
  snd (run_on utf8_console cpython demo_fs [prog; lit "dup.json"]) = Some 0 /\
  snd (run_on utf8_console cpython demo_fs [prog; lit "dup.json"; odd_name]) = Some 1.
Proof.
  split; [|split].
  - apply (@exit_status_is_0_or_1 utf8_console cpython demo_fs [prog]).
    intros f _; unfold coherent_for, takes_file; simpl; auto.
  - apply (@exit_status_is_0_or_1 utf8_console cpython demo_fs
             [prog; lit "dup.json"]).
    intros f _; unfold coherent_for, takes_file; simpl; auto.
  - apply (@exit_status_is_0_or_1 utf8_console cpython demo_fs
             [prog; lit "dup.json"; odd_name]).
    intros f _; unfold coherent_for, takes_file; simpl; auto.
Defined.

Lemma occurrences_without (k k' : text) (keys : list text) :
  k' <> k ->
  occurrences k' (filter (fun x => negb (text_eqb k x)) keys) =
  occurrences k' keys.
Proof.
  intros Hne; induction keys as [|x keys IH]; simpl; [reflexivity|].
  destruct (text_eqb_spec k x) as [<-|]; simpl.
  - destruct (text_eqb_spec k k'); [congruence | exact IH].
  - rewrite IH; reflexivity.
Qed.

Lemma length_without (k : text) (keys : list text) :
  List.length keys =
  occurrences k keys
  + List.length (filter (fun x => negb (text_eqb k x)) keys).
Proof.
  induction keys as [|x keys IH]; simpl; [reflexivity|].
  rewrite (text_eqb_sym x k).
  destruct (text_eqb k x); simpl; lia.
Qed.

Lemma repeated_keys_bound (l : list text) :
  forall keys,
    NoDup l -> (forall k, In k l -> 2 <= occurrences k keys) ->
    2 * List.length l <= List.length keys.
Proof.
  induction l as [|k l IH]; intros keys Hn Hk; simpl; [lia|].
  inversion Hn as [|? ? Hnotin Hn']; subst.
  pose proof (Hk k (or_introl eq_refl)) as H2.
  assert (IH' : 2 * List.length l
                <= List.length (filter (fun x => negb (text_eqb k x)) keys)).
  { apply IH; [assumption|].
    intros k' Hin; rewrite occurrences_without;
      [apply Hk; right; assumption | intros ->; contradiction]. }
  rewrite (length_without k keys); lia.
Qed.

(** X5.  An object literal with [n] members is reported with at most
    [n / 2] repeated keys. *)
Theorem at_most_half_the_members_are_reported
        (V : Type) (pairs : list (text * V)) :
  2 * List.length (duplicate_keys pairs) <= List.length pairs.
Proof.
  rewrite <- (length_map fst pairs).
  apply repeated_keys_bound; [apply duplicate_keys_NoDup|].
  intros k Hk; apply duplicate_keys_In, Hk.
Qed.

Lemma occurrences_Permutation (k : text) (l l' : list text) :
  Permutation l l' -> occurrences k l = occurrences k l'.
Proof. induction 1; simpl; lia. Qed.

(** X6.  Which keys are reported for an object literal does not depend on
    the order of its members: reordering the members reorders the duplicate
    list at most. *)
Theorem reported_keys_do_not_depend_on_member_order
        (V : Type) (pairs pairs' : list (text * V)) :
  Permutation pairs pairs' ->
  Permutation (duplicate_keys pairs) (duplicate_keys pairs').
Proof.
  intros H.
  apply NoDup_Permutation; try apply duplicate_keys_NoDup.
  intros k; rewrite !duplicate_keys_In.
  rewrite (occurrences_Permutation k (Permutation_map fst H)); tauto.
Qed.

Lemma reported_keys_do_not_depend_on_member_order_witness :
  Permutation
    (duplicate_keys [(key_a, 1); (key_b, 2); (key_b, 3); (key_a, 4)])
    (duplicate_keys [(key_b, 2); (key_a, 1); (key_b, 3); (key_a, 4)]).
Proof.
  apply (@reported_keys_do_not_depend_on_member_order
           nat [(key_a, 1); (key_b, 2); (key_b, 3); (key_a, 4)]
           [(key_b, 2); (key_a, 1); (key_b, 3); (key_a, 4)]).
  apply perm_swap.
Defined.

Lemma assign_all_keys (V : Type) (pairs : list (text * V)) :
  forall d : pydict V,
    map fst (fold_left (fun d kv => dict_set d (fst kv) (snd kv)) pairs d) =
    map fst d
    ++ filter (fun x => negb (text_mem x (map fst d))) (distinct (map fst pairs)).
Proof.
  induction pairs as [|[k v] pairs IH]; intros d; simpl.
  - symmetry; apply app_nil_r.
  - rewrite IH, dict_set_keys.
    destruct (text_mem k (map fst d)) eqn:E; simpl.
    + f_equal; rewrite filter_filter; apply filter_ext; intros x.
      destruct (text_eqb_spec k x) as [<-|]; simpl;
        [rewrite E|]; reflexivity.
    + rewrite <- app_assoc; simpl; do 2 f_equal.
      rewrite filter_filter; apply filter_ext; intros x.
      rewrite text_mem_app; simpl.
      rewrite orb_false_r, negb_orb, andb_comm; reflexivity.
Qed.

(** X7.  The dictionary the hook returns lists every key of the object
    literal once, at the place of its first occurrence (while its value is
    that of the last occurrence): its keys are the keys the counter holds,
    and it has as many items as the literal has distinct keys. *)
Theorem returned_dict_keeps_keys_at_first_occurrence
        (V : Type) (pairs : list (text * V)) :
  map fst (dict pairs) = distinct (map fst pairs) /\
  map fst (dict pairs) = map fst (Counter (map fst pairs)) /\
  List.length (dict pairs) <= List.length pairs.
Proof.
  assert (E : map fst (dict pairs) = distinct (map fst pairs)).
  { unfold dict; rewrite assign_all_keys; simpl.
    apply filter_all; reflexivity. }
  split; [exact E|]; split; [rewrite Counter_keys; exact E|].
  rewrite <- (length_map fst (dict pairs)), E, <- (length_map fst pairs).
  clear E; induction (map fst pairs) as [|k keys IH]; simpl; [lia|].
  pose proof (filter_length_le (fun x => negb (text_eqb k x)) (distinct keys)).
  lia.
Qed.



(** X9.  Whenever the decoder gives up on a document with a
    [RecursionError], because it nests more arrays or objects than the
    interpreter can follow, the script does not crash: on a console that
    prints the lines of the file, the error is caught like any parse failure
    and printed as the last line for that file, after the progress line and
    the reports printed so far, and [find_duplicate_keys] returns
    normally. *)
Theorem too_deep_nesting_is_reported_as_a_parse_error
        (con : console) (cfg : interp) (fs : text -> file) (json_file s : text)
        (w : world) :
  takes_file con json_file ->
  fs json_file = Content s ->
  syntax_tree cfg s = Raise RecursionError ->
  find_duplicate_keys_on con cfg fs json_file w =
  (World (stdout w ++ Checking json_file :: scan_output cfg json_file s
                   ++ [ErrorParsing json_file RecursionError])
         (opened w ++ [json_file]),
   Return tt) /\
  report_blocks json_file (scan_output cfg json_file s).
Proof.
  intros Ht Hfs Htree; split; [|apply scan_output_blocks].
  pose proof Ht as (Hp & _).
  rewrite find_duplicate_keys_on_eq by (intros _; exact Ht).
  rewrite Hp, find_duplicate_keys_cases, Hfs.
  pose proof (scan_result_tree cfg json_file s) as Hr.
  rewrite Htree in Hr; unfold related_top in Hr.
  destruct (scan_result cfg json_file s) as [v|e|]; try contradiction.
  destruct Hr as [<- _]; reflexivity.
Qed.

Lemma too_deep_nesting_is_reported_as_a_parse_error_witness :
  find_duplicate_keys_on utf8_console (Interp 2 0)
    (fun _ => Content (json_lit "[ {'a':1,'a':2}, [{'b': [1]}]]"))
    (lit "f.json") (World [] []) =
  (World ([] ++ Checking (lit "f.json")
             :: scan_output (Interp 2 0) (lit "f.json")
                  (json_lit "[ {'a':1,'a':2}, [{'b': [1]}]]")
             ++ [ErrorParsing (lit "f.json") RecursionError])
         ([] ++ [lit "f.json"]),
   Return tt) /\
  report_blocks (lit "f.json")
    (scan_output (Interp 2 0) (lit "f.json")
       (json_lit "[ {'a':1,'a':2}, [{'b': [1]}]]")).
Proof.
  apply (@too_deep_nesting_is_reported_as_a_parse_error
           utf8_console (Interp 2 0)
           (fun _ => Content (json_lit "[ {'a':1,'a':2}, [{'b': [1]}]]"))
           (lit "f.json") (json_lit "[ {'a':1,'a':2}, [{'b': [1]}]]")
           (World [] [])).
  - unfold takes_file; simpl; auto.
  - reflexivity.
  - vm_compute; reflexivity.
Defined.





